(** * src/handler/symbols.ts: the document symbol cache and its queries

    A shallow embedding of [SymbolsBuffer] (the per-document symbol cache) and
    of the query methods of [Symbols] (current function, current function
    info, select symbol range).

    JavaScript objects that are shared and mutated are kept in explicit
    stores: a [SymbolInfo[]] array is a reference into [arrays],
    a [CancellationTokenSource] is a reference into [tokens].  An [async]
    method is cut at its [await]: the part before it and the part after it
    are separate functions, so that other calls can run in between. *)

From Stdlib Require Import ZArith String Ascii List Bool Lia Sorted Permutation.
From stdpp Require Import gmap strings list fin_maps.
Import ListNotations.

Local Open Scope string_scope.
Local Open Scope list_scope.
Local Open Scope Z_scope.

(** ** Positions and ranges (vscode-languageserver-protocol) *)

Record Position := { line : Z; character : Z }.

(** [end] is reserved in Rocq: the [end] of a range is [end_]. *)
Record Range := { start : Position; end_ : Position }.

#[global] Instance Position_eq_dec : EqDecision Position.
Proof. solve_decision. Defined.

#[global] Instance Range_eq_dec : EqDecision Range.
Proof. solve_decision. Defined.

(** Modelled from the spec: [comparePosition] of util/position is not under
    src/.  Document order: by line, then by character. *)
Definition comparePosition (position other : Position) : Z :=
  if line other <? line position then 1
  else if (line other =? line position) && (character other <? character position) then 1
  else if (line other =? line position) && (character other =? character position) then 0
  else -1.

(** Modelled from the spec: [positionInRange] of util/position is not under
    src/.  The containment test is strict-or-equal on both bounds: [-1]
    before the start, [1] after the end, [0] inside. *)
Definition positionInRange (position : Position) (range : Range) : Z :=
  if comparePosition position (start range) <? 0 then -1
  else if 0 <? comparePosition position (end_ range) then 1
  else 0.

(** Modelled from the spec: [rangeInRange] of util/position is not under
    src/.  Both ends of [r] lie in [range]. *)
Definition rangeInRange (r range : Range) : bool :=
  (positionInRange (start r) range =? 0) && (positionInRange (end_ r) range =? 0).

(** Modelled from the spec: [equals] of util/object is not under src/.
    Structural equality, here of two ranges. *)
Definition equals (a b : Range) : bool := bool_decide (a = b).

(** ** Strings *)

(** [String.prototype.endsWith]. *)
Definition endsWith (s searchString : string) : bool :=
  let n := String.length s in
  let m := String.length searchString in
  (m <=? n)%nat && String.eqb (substring (n - m) m s) searchString.

Definition lowerAscii (c : ascii) : ascii :=
  let n := nat_of_ascii c in
  if ((65 <=? n) && (n <=? 90))%nat then ascii_of_nat (n + 32) else c.

(** [String.prototype.toLowerCase], on the ASCII letters (kind names are
    ASCII). *)
Fixpoint toLowerCase (s : string) : string :=
  match s with
  | EmptyString => EmptyString
  | String c rest => String (lowerAscii c) (toLowerCase rest)
  end.

(** A line of a document as JavaScript has it: its UTF-16 code units. *)
Definition Line := list Z.

(** The line that has the ASCII characters of [s]. *)
Definition codeUnits (s : string) : Line :=
  map (fun c => Z.of_nat (nat_of_ascii c)) (list_ascii_of_string s).

(** A code unit matched by [\s]: the white space and the line terminators
    of ECMAScript. *)
Definition isWhitespace (c : Z) : bool :=
  ((0x9 <=? c) && (c <=? 0xd))
  || (c =? 0x20) || (c =? 0xa0) || (c =? 0x1680)
  || ((0x2000 <=? c) && (c <=? 0x200a))
  || (c =? 0x2028) || (c =? 0x2029) || (c =? 0x202f) || (c =? 0x205f)
  || (c =? 0x3000) || (c =? 0xfeff).

(** [line.match(/^\s*/)[0].length] *)
Fixpoint leadingWhitespace (s : Line) : nat :=
  match s with
  | c :: rest => if isWhitespace c then S (leadingWhitespace rest) else O
  | [] => O
  end.

(** ** Symbols *)

(** [SymbolInfo] of handler/helper.  [range] is tested for presence by the
    queries ([sym.range && ...]), so it is optional here. *)
Record SymbolInfo := {
  lnum : Z;
  col : Z;
  text : string;
  level : Z;
  kind : string;
  range : option Range;
  selectionRange : option Range;
  containerName : option string
}.

Set Warnings "-register-all".

(** What the provider returns: a tree of [DocumentSymbol] or a flat list of
    [SymbolInformation]; [kind] is the numeric [SymbolKind]. *)
Inductive DocumentSymbol :=
  mkDocumentSymbol (name : string) (detail : string) (kind : Z)
                   (range selectionRange : Range)
                   (children : list DocumentSymbol).

Record SymbolInformation := {
  si_name : string;
  si_kind : Z;
  si_range : Range;          (* location.range *)
  si_containerName : option string
}.

(** [isDocumentSymbols] tells the two shapes apart; the empty array is not
    a [DocumentSymbol[]], it is [SymbolInformations []]. *)
Inductive ProviderResult :=
| DocumentSymbols (symbols : list DocumentSymbol)
| SymbolInformations (symbols : list SymbolInformation).

(** [Array.prototype.sort(compare)], a stable insertion sort. *)
Section Sort.
Context {A : Type} (compare : A -> A -> Z).

Fixpoint insertSorted (x : A) (l : list A) : list A :=
  match l with
  | [] => [x]
  | y :: rest => if 0 <? compare x y then y :: insertSorted x rest else x :: l
  end.

Definition sort (l : list A) : list A := foldr insertSorted [] l.
End Sort.

(** The table of util/convert and the two orderings of handler/helper that
    [_fetchSymbols] uses; they are not under src/ and are kept abstract. *)
Class Helper := {
  getSymbolKind : Z -> string;
  sortDocumentSymbols : DocumentSymbol -> DocumentSymbol -> Z;
  sortSymbolInformations : SymbolInformation -> SymbolInformation -> Z
}.

Section Normalize.
Context `{Helper}.

(** Modelled from the spec: [addDocumentSymbol] of handler/helper is not
    under src/.  A node becomes one entry at [level], followed by its
    children, sorted, at [level + 1], before the next sibling.  The children
    are flattened first and then put in the order of the sort, which is the
    same list. *)
Fixpoint addDocumentSymbol (level : Z) (sym : DocumentSymbol) : list SymbolInfo :=
  match sym with
  | mkDocumentSymbol name _ kind range selectionRange children =>
      {| lnum := line (start selectionRange) + 1;
         col := character (start selectionRange) + 1;
         text := name;
         level := level;
         kind := getSymbolKind kind;
         range := Some range;
         selectionRange := Some selectionRange;
         containerName := None |}
      :: concat (map snd
           (sort (fun a b => sortDocumentSymbols (fst a) (fst b))
                 (map (fun c => (c, addDocumentSymbol (level + 1) c)) children)))
  end.

(** The body of the [else] branch of [_fetchSymbols]. *)
Definition symbolInformationInfo (sym : SymbolInformation) : SymbolInfo :=
  {| lnum := line (start (si_range sym)) + 1;
     col := character (start (si_range sym)) + 1;
     text := si_name sym;
     level := 0;
     kind := getSymbolKind (si_kind sym);
     range := Some (si_range sym);
     selectionRange := None;
     containerName := si_containerName sym |}.

(** The array [res] that [_fetchSymbols] builds. *)
Definition flatten (symbols : ProviderResult) : list SymbolInfo :=
  match symbols with
  | DocumentSymbols l =>
      concat (map (addDocumentSymbol 0) (sort sortDocumentSymbols l))
  | SymbolInformations l =>
      map symbolInformationInfo (sort sortSymbolInformations l)
  end.

(** [addDocumentSymbol] sorts the [children] arrays of the provider's
    tree in place; this is the tree afterwards. *)
Fixpoint sortedChildren (sym : DocumentSymbol) : DocumentSymbol :=
  match sym with
  | mkDocumentSymbol name detail kind range selectionRange children =>
      mkDocumentSymbol name detail kind range selectionRange
        (map snd
           (sort (fun a b => sortDocumentSymbols (fst a) (fst b))
                 (map (fun c => (c, sortedChildren c)) children)))
  end.

(** The argument of [_onDidUpdate.fire]: the provider's array as the
    commit left it, a flat result turned into childless
    [DocumentSymbol]s. *)
Definition updatePayload (symbols : ProviderResult) : list DocumentSymbol :=
  match symbols with
  | DocumentSymbols l => map sortedChildren (sort sortDocumentSymbols l)
  | SymbolInformations l =>
      map (fun o => mkDocumentSymbol (si_name o) "" (si_kind o) (si_range o) (si_range o) [])
          (sort sortSymbolInformations l)
  end.
End Normalize.

(** ** The workspace and the stores *)

Module TextDocument.
Record t := { uri : string; version : Z }.
End TextDocument.

(** model/document: what the handler reads of a [Document]. *)
Record Document := {
  attached : bool;
  textDocument : TextDocument.t;
  lines : list Line
}.

(** The fields of a [SymbolsBuffer].  [version] is undefined until the first
    commit, [symbols] is a reference into [arrays] (undefined after
    [dispose]), [tokenSource] a reference into [tokens], and [fetchSymbols]
    tells whether the debounced call is scheduled. *)
Record SymbolsBuffer := {
  version : option Z;
  autoUpdate : bool;
  symbols : option nat;
  tokenSource : option nat;
  fetchSymbols : bool
}.

(** A call of [_fetchSymbols] suspended at its [await], with its locals. *)
Record Fetch := { f_this : Z; f_version : Z; f_token : nat }.

(** What the code sends out: provider calls, update events and the writes
    to the editor.  Reads (cursor, current buffer, selection) are inputs. *)
Inductive Effect :=
| GetDocumentSymbol (bufnr : Z) (version : Z) (token : nat)
| DidUpdate (bufnr : Z) (symbols : list DocumentSymbol)
| SetVar (bufnr : Z) (name value : string)
| Call (method : string) (args : list string)
| Command (command : string)
| ShowMessage (msg messageType : string)
| SelectRange (range : Range).

Record World := {
  documents : gmap Z Document;          (* workspace.getDocument *)
  buffers : gmap Z SymbolsBuffer;       (* this.buffers.getItem *)
  arrays : list (list SymbolInfo);      (* the SymbolInfo[] objects *)
  tokens : list bool;                   (* isCancellationRequested, per token source *)
  inflight : list Fetch;                (* provider calls that have not returned *)
  effects : list Effect                 (* oldest first *)
}.

Definition with_documents (f : gmap Z Document -> gmap Z Document) (w : World) : World :=
  {| documents := f (documents w); buffers := buffers w; arrays := arrays w;
     tokens := tokens w; inflight := inflight w; effects := effects w |}.

Definition with_buffers (f : gmap Z SymbolsBuffer -> gmap Z SymbolsBuffer) (w : World) : World :=
  {| documents := documents w; buffers := f (buffers w); arrays := arrays w;
     tokens := tokens w; inflight := inflight w; effects := effects w |}.

Definition with_arrays (f : list (list SymbolInfo) -> list (list SymbolInfo)) (w : World) : World :=
  {| documents := documents w; buffers := buffers w; arrays := f (arrays w);
     tokens := tokens w; inflight := inflight w; effects := effects w |}.

Definition with_tokens (f : list bool -> list bool) (w : World) : World :=
  {| documents := documents w; buffers := buffers w; arrays := arrays w;
     tokens := f (tokens w); inflight := inflight w; effects := effects w |}.

Definition with_inflight (f : list Fetch -> list Fetch) (w : World) : World :=
  {| documents := documents w; buffers := buffers w; arrays := arrays w;
     tokens := tokens w; inflight := f (inflight w); effects := effects w |}.

Definition emit (e : Effect) (w : World) : World :=
  {| documents := documents w; buffers := buffers w; arrays := arrays w;
     tokens := tokens w; inflight := inflight w; effects := effects w ++ [e] |}.

(** A field update of the buffer object [this]. *)
Definition updateBuffer (this : Z) (f : SymbolsBuffer -> SymbolsBuffer) : World -> World :=
  with_buffers (alter f this).

Definition set_version (v : option Z) (b : SymbolsBuffer) : SymbolsBuffer :=
  {| version := v; autoUpdate := autoUpdate b; symbols := symbols b;
     tokenSource := tokenSource b; fetchSymbols := fetchSymbols b |}.

Definition set_autoUpdate (a : bool) (b : SymbolsBuffer) : SymbolsBuffer :=
  {| version := version b; autoUpdate := a; symbols := symbols b;
     tokenSource := tokenSource b; fetchSymbols := fetchSymbols b |}.

Definition set_symbols (s : option nat) (b : SymbolsBuffer) : SymbolsBuffer :=
  {| version := version b; autoUpdate := autoUpdate b; symbols := s;
     tokenSource := tokenSource b; fetchSymbols := fetchSymbols b |}.

Definition set_tokenSource (t : option nat) (b : SymbolsBuffer) : SymbolsBuffer :=
  {| version := version b; autoUpdate := autoUpdate b; symbols := symbols b;
     tokenSource := t; fetchSymbols := fetchSymbols b |}.

Definition set_fetchSymbols (p : bool) (b : SymbolsBuffer) : SymbolsBuffer :=
  {| version := version b; autoUpdate := autoUpdate b; symbols := symbols b;
     tokenSource := tokenSource b; fetchSymbols := p |}.

(** A new array object; its reference is the next free index. *)
Definition newArray (l : list SymbolInfo) (w : World) : nat * World :=
  (length (arrays w), with_arrays (fun a => a ++ [l]) w).

(** [new CancellationTokenSource()] *)
Definition newTokenSource (w : World) : nat * World :=
  (length (tokens w), with_tokens (fun t => t ++ [false]) w).

(** [token.isCancellationRequested] *)
Definition isCancellationRequested (t : nat) (w : World) : bool :=
  match tokens w !! t with
  | Some c => c
  | None => false
  end.

(** [Array.prototype.reverse]: the array object itself is reversed. *)
Definition reverse (r : nat) (w : World) : World :=
  with_arrays (alter (@rev SymbolInfo) r) w.

(** The contents of the array that [this.symbols] refers to. *)
Definition snapshot (this : Z) (w : World) : option (list SymbolInfo) :=
  match buffers w !! this with
  | Some buf =>
      match symbols buf with
      | Some r => arrays w !! r
      | None => None
      end
  | None => None
  end.

(** [new SymbolsBuffer(bufnr)] *)
Definition newSymbolsBuffer (bufnr : Z) (w : World) : World :=
  let '(r, w) := newArray [] w in
  with_buffers (insert bufnr
    {| version := None; autoUpdate := false; symbols := Some r;
       tokenSource := None; fetchSymbols := false |}) w.

(** ** SymbolsBuffer *)

(** [cancel()] *)
Definition cancel (this : Z) (w : World) : World :=
  let w := updateBuffer this (set_fetchSymbols false) w in
  match buffers w !! this with
  | Some buf =>
      match tokenSource buf with
      | Some t =>
          let w := with_tokens (fun ts => <[t:=true]> ts) w in
          updateBuffer this (set_tokenSource None) w
      | None => w
      end
  | None => w
  end.

(** [onChange()] *)
Definition onChange (this : Z) (w : World) : World := cancel this w.

(** [dispose()]; the emitter and the disposables hold no state of the
    model. *)
Definition dispose (this : Z) (w : World) : World :=
  let w := cancel this w in
  updateBuffer this (set_symbols None) w.

(** Modelled from the spec: [Document.forceSync] is not under src/.  The
    documents of the model are always synchronised: an edit is one event
    that gives the document its new version and calls [onChange], so there
    is nothing left to synchronise. *)
Definition forceSync (this : Z) (w : World) : World := w.

(** [doc.version], read from the text document. *)
Definition documentVersion (this : Z) (w : World) : option Z :=
  match documents w !! this with
  | Some doc => Some (TextDocument.version (textDocument doc))
  | None => None
  end.

Section Cache.
Context `{Helper}.

(** [_fetchSymbols()] up to its [await]: [None] when it returns without
    calling the provider, otherwise the suspended call. *)
Definition _fetchSymbols_call (this : Z) (w : World) : option Fetch * World :=
  match buffers w !! this, documents w !! this with
  | Some buf, Some doc =>
      let textDocument := textDocument doc in
      if bool_decide (Some (TextDocument.version textDocument) = version buf)
      then (None, w)
      else
        let version := TextDocument.version textDocument in
        let '(tokenSource, w) := newTokenSource w in
        let w := updateBuffer this (set_tokenSource (Some tokenSource)) w in
        let w := emit (GetDocumentSymbol this version tokenSource) w in
        let f := {| f_this := this; f_version := version; f_token := tokenSource |} in
        (Some f, with_inflight (fun fs => fs ++ [f]) w)
  | _, _ => (None, w)
  end.

(** [_fetchSymbols()] from its [await] on, when the provider has returned
    [symbols] ([None] is null or undefined). *)
Definition _fetchSymbols_resume (f : Fetch) (symbols : option ProviderResult)
           (w : World) : World :=
  let this := f_this f in
  let w := updateBuffer this (set_tokenSource None) w in
  match symbols with
  | None => w
  | Some symbols =>
      if isCancellationRequested (f_token f) w then w
      else
        let '(res, w) := newArray (flatten symbols) w in
        let w := updateBuffer this (set_version (Some (f_version f))) w in
        let w := updateBuffer this (set_symbols (Some res)) w in
        emit (DidUpdate this (updatePayload symbols)) w
  end.

(** A method that has returned [value], or waits for a provider call. *)
Inductive Pending (A : Type) :=
| Returned (value : A)
| Awaiting (f : Fetch).
Arguments Returned {A} value.
Arguments Awaiting {A} f.

(** [this.symbols] *)
Definition thisSymbols (this : Z) (w : World) : option nat :=
  match buffers w !! this with
  | Some buf => symbols buf
  | None => None
  end.

(** [getSymbols()] up to the [await] of [_fetchSymbols]. *)
Definition getSymbols_call (this : Z) (w : World) : Pending (option nat) * World :=
  match documents w !! this with
  | None => let '(r, w) := newArray [] w in (Returned (Some r), w)
  | Some _ =>
      let w := forceSync this w in
      let w := updateBuffer this (set_autoUpdate true) w in
      match buffers w !! this with
      | None => (Returned None, w)
      | Some buf =>
          if bool_decide (documentVersion this w = version buf)
          then (Returned (symbols buf), w)
          else
            let w := cancel this w in
            match _fetchSymbols_call this w with
            | (Some f, w) => (Awaiting f, w)
            | (None, w) => (Returned (thisSymbols this w), w)
            end
      end
  end.

(** The provider call of [f] returns: the call leaves [inflight] and
    [_fetchSymbols] resumes. *)
Definition providerReturns (f : Fetch) (symbols : option ProviderResult)
           (w : World) : World :=
  let w := with_inflight (List.filter (fun g => negb (f_token g =? f_token f)%nat)) w in
  _fetchSymbols_resume f symbols w.

(** [_fetchSymbols()] when the provider call rejects: the [await] throws,
    so nothing after it runs.  [this.tokenSource] keeps what it holds, the
    version and the symbols are not touched, and the rejection leaves
    through the caller: through the [await] of [getSymbols] on the forced
    path, into [logError] on the debounced one. *)
Definition _fetchSymbols_reject (f : Fetch) (w : World) : World := w.

(** The provider call of [f] rejects: the call leaves [inflight]. *)
Definition providerRejects (f : Fetch) (w : World) : World :=
  let w := with_inflight (List.filter (fun g => negb (f_token g =? f_token f)%nat)) w in
  _fetchSymbols_reject f w.

(** [getSymbols()] run alone, in the case that the provider, if called,
    returns: it answers [answer] before anything else happens.  (When the
    call rejects, [getSymbols] does not return: see [providerRejects].) *)
Definition getSymbols (answer : option ProviderResult) (this : Z) (w : World)
  : option nat * World :=
  match getSymbols_call this w with
  | (Returned value, w) => (value, w)
  | (Awaiting f, w) =>
      let w := providerReturns f answer w in
      (thisSymbols this w, w)
  end.

(** How the provider call of a method that is run alone ends. *)
Inductive ProviderOutcome :=
| Resolves (symbols : option ProviderResult)
| Rejects.

(** [getSymbols()] run alone, whichever way the provider call ends, if one
    is made.  [None] is the promise that rejects: when the provider call
    rejects, the rejection leaves [_fetchSymbols] at its [await] and
    [getSymbols] at the [await] of line 197, and nothing is returned. *)
Definition getSymbols_settled (outcome : ProviderOutcome) (this : Z) (w : World)
  : option (option nat) * World :=
  match getSymbols_call this w with
  | (Returned value, w) => (Some value, w)
  | (Awaiting f, w) =>
      match outcome with
      | Resolves symbols =>
          let w := providerReturns f symbols w in
          (Some (thisSymbols this w), w)
      | Rejects => (None, providerRejects f w)
      end
  end.

(** *** The cache under interleaved calls *)

Inductive Event :=
| CallGetSymbols (bufnr : Z)          (* a caller enters getSymbols() *)
| CallFetchSymbols (bufnr : Z)        (* fetchSymbols(): the debounce is armed *)
| Timeout (bufnr : Z)                 (* the debounce delay has passed *)
| ProviderReturns (token : nat) (symbols : option ProviderResult)
| ProviderRejects (token : nat)       (* the provider call fails *)
| Change (bufnr : Z)                  (* an edit: new version, then onChange() *)
| InsertEnter (bufnr : Z)
| Dispose (bufnr : Z).

Definition bumpVersion (doc : Document) : Document :=
  {| attached := attached doc;
     textDocument := {| TextDocument.uri := TextDocument.uri (textDocument doc);
                        TextDocument.version := TextDocument.version (textDocument doc) + 1 |};
     lines := lines doc |}.

Definition step (w : World) (e : Event) : World :=
  match e with
  | CallGetSymbols bufnr =>
      match buffers w !! bufnr with
      | Some _ => snd (getSymbols_call bufnr w)
      | None => w
      end
  | CallFetchSymbols bufnr => updateBuffer bufnr (set_fetchSymbols true) w
  | Timeout bufnr =>
      match buffers w !! bufnr with
      | Some buf =>
          if fetchSymbols buf
          then snd (_fetchSymbols_call bufnr (updateBuffer bufnr (set_fetchSymbols false) w))
          else w
      | None => w
      end
  | ProviderReturns token symbols =>
      match List.find (fun g => (f_token g =? token)%nat) (inflight w) with
      | Some f => providerReturns f symbols w
      | None => w
      end
  | ProviderRejects token =>
      match List.find (fun g => (f_token g =? token)%nat) (inflight w) with
      | Some f => providerRejects f w
      | None => w
      end
  | Change bufnr => onChange bufnr (with_documents (alter bumpVersion bufnr) w)
  | InsertEnter bufnr => cancel bufnr w
  | Dispose bufnr => dispose bufnr w
  end.

Definition run (w : World) (events : list Event) : World := fold_left step events w.

(** The provider calls of [bufnr] that have not returned and whose token
    is not cancelled. *)
Definition outstanding (bufnr : Z) (w : World) : list Fetch :=
  List.filter (fun f => (f_this f =? bufnr) && negb (isCancellationRequested (f_token f) w))
              (inflight w).
End Cache.

Arguments Returned {A} value.
Arguments Awaiting {A} f.

(** ** Symbols: the queries *)

(** What a query reads from the editor, the configuration and the language
    registry, and what the provider call returns if the query has to fetch
    (the queries below are the runs in which that call returns; the
    [_settled] ones take the way it ends as an argument). *)
Record Env := {
  currentBufnr : Z;                         (* nvim.call('bufnr', ['%']) *)
  cursorPosition : Position;                (* window.getCursorPosition() *)
  selectedRange : Range;                    (* workspace.getSelectedRange(visualmode, doc) *)
  hasProvider : TextDocument.t -> bool;     (* languages.hasProvider('documentSymbol', _) *)
  functionUpdate : bool;                    (* currentFunctionSymbolAutoUpdate *)
  labels : gmap string string;              (* completionItemKindLabels *)
  answer : option ProviderResult
}.

(** An element of the array that [getCurrentFunctionInfo] returns. *)
Inductive InfoItem :=
| InfoName (functionName : string)
| InfoPosition (position : Position).

(** [if (!bufnr) bufnr = await this.nvim.call('bufnr', ['%'])] *)
Definition resolveBufnr (bufnr : option Z) (env : Env) : Z :=
  match bufnr with
  | Some n => if n =? 0 then currentBufnr env else n
  | None => currentBufnr env
  end.

(** The test of the two current-function loops. *)
Definition isCurrentFunction (position : Position) (sym : SymbolInfo) : bool :=
  match range sym with
  | Some r => (positionInRange position r =? 0) && negb (endsWith (text sym) ") callback")
  | None => false
  end.

(** The kinds [getCurrentFunctionSymbol] keeps. *)
Definition functionKinds : list string := ["Class"; "Method"; "Function"; "Struct"].

(** [a.includes(s)] *)
Definition includes (a : list string) (s : string) : bool := existsb (String.eqb s) a.

(** The name that [getCurrentFunctionSymbol] builds for the symbol it found. *)
Definition decorate (env : Env) (sym : SymbolInfo) : string :=
  match labels env !! toLowerCase (kind sym) with
  | Some label => if String.eqb label "" then text sym else (label ++ " " ++ text sym)%string
  | None => text sym
  end.

(** The test of the loop of [selectSymbolRange]. *)
Definition isContaining (reference : Range) (sym : SymbolInfo) : bool :=
  match range sym with
  | Some r => negb (equals r reference) && rangeInRange reference r
  | None => false
  end.

(** [doc.getline(line)] *)
Definition getline (doc : Document) (n : Z) : Line :=
  if n <? 0 then [] else nth (Z.to_nat n) (lines doc) [].

(** The narrowing of [selectSymbolRange] for [inner]; [firstLine] is the
    source's [line]. *)
Definition innerRange (doc : Document) (selectRange : Range) : Range :=
  let firstLine := getline doc (line (start selectRange) + 1) in
  let endLine := getline doc (line (end_ selectRange) - 1) in
  {| start := {| line := line (start selectRange) + 1;
                 character := Z.of_nat (leadingWhitespace firstLine) |};
     end_ := {| line := line (end_ selectRange) - 1;
                character := Z.of_nat (length endLine) |} |}.

Inductive Completion := Completed | Threw.

Section Symbols.
Context `{Helper}.

(** [getDocumentSymbols(bufnr)], run alone, in the case that the provider,
    if called, returns. *)
Definition getDocumentSymbols (env : Env) (bufnr : Z) (w : World) : option nat * World :=
  match buffers w !! bufnr with
  | Some _ => getSymbols (answer env) bufnr w
  | None => (None, w)
  end.

(** The array behind the value of [await this.getDocumentSymbols(bufnr)],
    [None] when the value is undefined. *)
Definition deref (symbols : option nat) (w : World) : option (list SymbolInfo) :=
  match symbols with
  | Some r => arrays w !! r
  | None => None
  end.

(** [getCurrentFunctionInfo] from the line after
    [await this.getDocumentSymbols(bufnr)]. *)
Definition getCurrentFunctionInfo_scan (position : Position) (symbols : option nat)
           (w : World) : list InfoItem * World :=
  match symbols, deref symbols w with
  | Some r, Some (s :: l) =>
      let w := reverse r w in
      match List.find (isCurrentFunction position) (rev (s :: l)) with
      | Some sym =>
          match range sym with
          | Some r =>
              ([InfoName (text sym); InfoPosition (start r); InfoPosition (end_ r)], w)
          | None => ([], w)
          end
      | None => ([], w)
      end
  | _, _ => ([], w)
  end.

Definition getCurrentFunctionInfo (bufnr : option Z) (env : Env) (w : World)
  : list InfoItem * World :=
  let bufnr := resolveBufnr bufnr env in
  match documents w !! bufnr with
  | None => ([], w)
  | Some doc =>
      if negb (attached doc) then ([], w)
      else if negb (hasProvider env (textDocument doc)) then ([], w)
      else
        let position := cursorPosition env in
        let '(symbols, w) := getDocumentSymbols env bufnr w in
        getCurrentFunctionInfo_scan position symbols w
  end.

(** [getCurrentFunctionSymbol] from the line after
    [await this.getDocumentSymbols(bufnr)]; the result is [Some] of the
    returned string. *)
Definition getCurrentFunctionSymbol_scan (env : Env) (bufnr : Z) (position : Position)
           (symbols : option nat) (w : World) : option string * World :=
  match deref symbols w with
  | Some (s :: l) =>
      let '(filtered, w) :=
        newArray (List.filter (fun s => includes functionKinds (kind s)) (s :: l)) w in
      let w := reverse filtered w in
      let functionName :=
        match List.find (isCurrentFunction position)
                (rev (List.filter (fun s => includes functionKinds (kind s)) (s :: l))) with
        | Some sym => decorate env sym
        | None => ""
        end in
      let w :=
        if functionUpdate env
        then emit (Call "coc#util#do_autocmd" ["CocStatusChange"])
                  (emit (SetVar bufnr "coc_current_function" functionName) w)
        else w in
      (Some functionName, w)
  | _ =>
      let w := emit (SetVar bufnr "coc_current_function" "") w in
      let w := emit (Call "coc#util#do_autocmd" ["CocStatusChange"]) w in
      (Some "", w)
  end.

(** [None] is the [return] without a value. *)
Definition getCurrentFunctionSymbol (bufnr : option Z) (env : Env) (w : World)
  : option string * World :=
  let bufnr := resolveBufnr bufnr env in
  match documents w !! bufnr with
  | None => (None, w)
  | Some doc =>
      if negb (attached doc) then (None, w)
      else if negb (hasProvider env (textDocument doc)) then (None, w)
      else
        let position := cursorPosition env in
        let '(symbols, w) := getDocumentSymbols env bufnr w in
        getCurrentFunctionSymbol_scan env bufnr position symbols w
  end.

(** [getDocumentSymbols(bufnr)] run alone, whichever way the provider call
    ends; [None] is the promise that rejects. *)
Definition getDocumentSymbols_settled (outcome : ProviderOutcome) (bufnr : Z) (w : World)
  : option (option nat) * World :=
  match buffers w !! bufnr with
  | Some _ => getSymbols_settled outcome bufnr w
  | None => (Some None, w)
  end.

(** [getCurrentFunctionSymbol] run alone, whichever way the provider call
    ends.  [None] is the promise that rejects: the rejection leaves at the
    [await] of line 99, before the lines that write to the editor.
    [Some None] is the [return] without a value. *)
Definition getCurrentFunctionSymbol_settled (outcome : ProviderOutcome)
           (bufnr : option Z) (env : Env) (w : World)
  : option (option string) * World :=
  let bufnr := resolveBufnr bufnr env in
  match documents w !! bufnr with
  | None => (Some None, w)
  | Some doc =>
      if negb (attached doc) then (Some None, w)
      else if negb (hasProvider env (textDocument doc)) then (Some None, w)
      else
        let position := cursorPosition env in
        match getDocumentSymbols_settled outcome bufnr w with
        | (Some symbols, w) =>
            let '(functionName, w) :=
              getCurrentFunctionSymbol_scan env bufnr position symbols w in
            (Some functionName, w)
        | (None, w) => (None, w)
        end
  end.

(** The loop of [selectSymbolRange]: the range of the first symbol, from
    the end of the filtered array, that is not [range] and contains it. *)
Definition containingRange (supportedSymbols : list string) (reference : Range)
           (symbols : list SymbolInfo) : option Range :=
  match List.find (isContaining reference)
          (rev (List.filter (fun s => includes supportedSymbols (kind s)) symbols)) with
  | Some sym => range sym
  | None => None
  end.

(** [selectSymbolRange] from the line after
    [await this.getDocumentSymbols(doc.bufnr)]. *)
Definition selectSymbolRange_scan (inner : bool) (visualmode : string)
           (supportedSymbols : list string) (doc : Document) (reference : Range)
           (symbols : option nat) (w : World) : World :=
  match deref symbols w with
  | Some (s :: l) =>
      let '(filtered, w) :=
        newArray (List.filter (fun s => includes supportedSymbols (kind s)) (s :: l)) w in
      let w := reverse filtered w in
      let selectRange := containingRange supportedSymbols reference (s :: l) in
      let selectRange :=
        match selectRange with
        | Some r => if inner then Some (innerRange doc r) else Some r
        | None => None
        end in
      match selectRange with
      | Some r => emit (SelectRange r) w
      | None =>
          if includes ["v"; "V"; String (ascii_of_nat 22) ""] visualmode
          then emit (Command "normal! gv") w
          else w
      end
  | _ => emit (ShowMessage "No symbols found" "warning") w
  end.

(** Modelled from the spec: [handler.getCurrentState] and
    [handler.checkProvier] are not under src/.  The state is that of the
    current buffer, which has to be attached; a missing provider is
    surfaced by a throw before any fetch. *)
Definition selectSymbolRange (inner : bool) (visualmode : string)
           (supportedSymbols : list string) (env : Env) (w : World)
  : Completion * World :=
  match documents w !! currentBufnr env with
  | None => (Threw, w)
  | Some doc =>
      if negb (attached doc) then (Threw, w)
      else if negb (hasProvider env (textDocument doc)) then (Threw, w)
      else
        let reference :=
          if String.eqb visualmode "" then
            {| start := cursorPosition env; end_ := cursorPosition env |}
          else selectedRange env in
        let '(symbols, w) := getDocumentSymbols env (currentBufnr env) w in
        (Completed,
         selectSymbolRange_scan inner visualmode supportedSymbols doc reference symbols w)
  end.
End Symbols.

(** The committed part of a buffer: its version and the reference of its
    snapshot. *)
Definition committed (b : Z) (w : World) : option (option Z * option nat) :=
  (fun buf => (version buf, symbols buf)) <$> buffers w !! b.

(** ** Nesting of a symbol tree *)

Definition symbolRange (sym : DocumentSymbol) : Range :=
  match sym with
  | mkDocumentSymbol _ _ _ range _ _ => range
  end.

(** A position is inside a range. *)
Definition contains (r : Range) (position : Position) : bool :=
  positionInRange position r =? 0.

(** Two ranges can share a position. *)
Definition overlap (a b : Range) : bool :=
  (comparePosition (start a) (end_ b) <=? 0) && (comparePosition (start b) (end_ a) <=? 0).

Fixpoint pairwiseDisjoint (l : list Range) : bool :=
  match l with
  | [] => true
  | r :: rest => forallb (fun r' => negb (overlap r r')) rest && pairwiseDisjoint rest
  end.

(** Children lie inside their parent and siblings do not overlap, at every
    depth: the nesting that the reverse scan relies on. *)
Fixpoint properlyNested (sym : DocumentSymbol) : bool :=
  match sym with
  | mkDocumentSymbol _ _ _ range _ children =>
      forallb (fun c => rangeInRange (symbolRange c) range) children
      && pairwiseDisjoint (map symbolRange children)
      && forallb properlyNested children
  end.

Definition properForest (forest : list DocumentSymbol) : bool :=
  pairwiseDisjoint (map symbolRange forest) && forallb properlyNested forest.

(** [a] is inside [b] and is not [b]. *)
Definition strictlyInside (a b : Range) : Prop :=
  rangeInRange a b = true /\ a <> b.

Section Walk.
Context `{Helper}.

(** Select-symbol-range called again and again, without [inner], each time
    on the range selected before: the ranges selected, in order. *)
Fixpoint walk (supportedSymbols : list string) (symbols : list SymbolInfo)
         (n : nat) (reference : Range) : list Range :=
  match n with
  | O => []
  | S n' =>
      match containingRange supportedSymbols reference symbols with
      | Some r => r :: walk supportedSymbols symbols n' r
      | None => []
      end
  end.
End Walk.

(** ** Data for the examples *)

Module Sample.

(** SymbolKind numbers of the language server protocol, as far as the
    examples need them; the orderings go by the start of the selection
    range and of the location range. *)
#[local] Instance helper : Helper := {|
  getSymbolKind k :=
    if k =? 5 then "Class"
    else if k =? 6 then "Method"
    else if k =? 12 then "Function"
    else if k =? 13 then "Variable"
    else if k =? 23 then "Struct"
    else "Unknown";
  sortDocumentSymbols a b :=
    match a, b with
    | mkDocumentSymbol _ _ _ _ ra _, mkDocumentSymbol _ _ _ _ rb _ =>
        comparePosition (start ra) (start rb)
    end;
  sortSymbolInformations a b :=
    comparePosition (start (si_range a)) (start (si_range b))
|}.

Definition pos (l c : Z) : Position := {| line := l; character := c |}.

Definition lineRange (from to : Z) : Range :=
  {| start := pos from 0; end_ := pos to 0 |}.

Definition function (name : string) (r : Range) (children : list DocumentSymbol)
  : DocumentSymbol :=
  mkDocumentSymbol name "" 12 r r children.

(** [A [0,100)] containing [B [10,50)] containing [C [20,30)]. *)
Definition treeABC : DocumentSymbol :=
  function "A" (lineRange 0 100)
    [function "B" (lineRange 10 50) [function "C" (lineRange 20 30) []]].

(** Two functions side by side, the end of [X] being the start of [Z], and
    [Y] inside [X] up to that end. *)
Definition treeAdjacent : DocumentSymbol :=
  function "W" (lineRange 0 20)
    [function "X" (lineRange 0 10) [function "Y" (lineRange 5 10) []];
     function "Z" (lineRange 10 20) []].

(** A function whose body holds a callback entry. *)
Definition treeCallback : DocumentSymbol :=
  function "main" (lineRange 0 100)
    [function "processData() callback" (lineRange 10 50) []].

Definition document (v : Z) : Document :=
  {| attached := true;
     textDocument := {| TextDocument.uri := "file:///a.ts"; TextDocument.version := v |};
     lines := map codeUnits ["function f() {"; "  a"; "  b"; "}"] |}.

Definition emptyWorld : World :=
  {| documents := ∅; buffers := ∅; arrays := []; tokens := [];
     inflight := []; effects := [] |}.

(** Buffer 1 is attached at version 1 and its cache is new. *)
Definition world : World :=
  newSymbolsBuffer 1 (with_documents (insert 1 (document 1)) emptyWorld).

Definition env (position : Position) (answer : option ProviderResult) : Env :=
  {| currentBufnr := 1;
     cursorPosition := position;
     selectedRange := {| start := position; end_ := position |};
     hasProvider := fun _ => true;
     functionUpdate := false;
     labels := ∅;
     answer := answer |}.

(** The same, for a call in visual mode with [r] selected. *)
Definition selecting (r : Range) : Env :=
  {| currentBufnr := 1;
     cursorPosition := start r;
     selectedRange := r;
     hasProvider := fun _ => true;
     functionUpdate := false;
     labels := ∅;
     answer := None |}.

(** The function of the four lines of [document]. *)
Definition treeF : DocumentSymbol :=
  function "f" {| start := pos 0 0; end_ := pos 3 1 |} [].

(** The world after a first query has fetched and committed [result]. *)
Definition fetched (result : ProviderResult) : World :=
  snd (getSymbols (Some result) 1 world).

Definition info (name : string) (r : Range) : list InfoItem :=
  [InfoName name; InfoPosition (start r); InfoPosition (end_ r)].

(** The two current-function queries on buffer 1, whose cache is new, with
    the cursor at [position], when the provider answers with [tree]. *)
Definition currentInfo (tree : DocumentSymbol) (position : Position) : list InfoItem :=
  fst (getCurrentFunctionInfo (Some 1) (env position (Some (DocumentSymbols [tree]))) world).

Definition currentName (tree : DocumentSymbol) (position : Position) : option string :=
  fst (getCurrentFunctionSymbol (Some 1) (env position (Some (DocumentSymbols [tree]))) world).

(** [Class Foo { Method bar(); Method baz(); }] *)
Definition treeFoo : DocumentSymbol :=
  mkDocumentSymbol "Foo" "" 5 (lineRange 0 30) (lineRange 0 30)
    [mkDocumentSymbol "bar" "" 6 (lineRange 1 10) (lineRange 1 10) [];
     mkDocumentSymbol "baz" "" 6 (lineRange 11 20) (lineRange 11 20) []].

(** The preference is on and [kindLabels] are the labels configured. *)
Definition publishing (position : Position) (kindLabels : gmap string string) : Env :=
  {| currentBufnr := 1;
     cursorPosition := position;
     selectedRange := {| start := position; end_ := position |};
     hasProvider := fun _ => true;
     functionUpdate := true;
     labels := kindLabels;
     answer := None |}.

(** A flat provider result, not in document order. *)
Definition flatSymbols : list SymbolInformation :=
  [{| si_name := "second"; si_kind := 12; si_range := lineRange 10 20;
      si_containerName := Some "Foo" |};
   {| si_name := "first"; si_kind := 13;
      si_range := {| start := pos 2 4; end_ := pos 2 9 |};
      si_containerName := None |}].

End Sample.

#[local] Existing Instance Sample.helper.

(** Document order on positions, as a proposition. *)
Definition ple (p q : Position) : Prop :=
  line p < line q \/ (line p = line q /\ character p <= character q).

(** The text of a symbol ends with the callback suffix. *)
Definition isCallback (sym : SymbolInfo) : bool := endsWith (text sym) ") callback".

(** The info array of [getCurrentFunctionInfo] for a symbol. *)
Definition infoOf (sym : SymbolInfo) : list InfoItem :=
  match range sym with
  | Some r => [InfoName (text sym); InfoPosition (start r); InfoPosition (end_ r)]
  | None => []
  end.

(** The range of a symbol contains the position. *)
Definition containing (position : Position) (sym : SymbolInfo) : bool :=
  match range sym with
  | Some r => contains r position
  | None => false
  end.

(** [found] is a symbol of [l] that [accept] accepts and that is nested at
    least as deeply as every other accepted symbol of [l]; it is [None] only
    when [accept] accepts no symbol of [l]. *)
Definition innermostAmong (accept : SymbolInfo -> bool) (l : list SymbolInfo)
           (found : option SymbolInfo) : Prop :=
  match found with
  | Some sym =>
      In sym l /\ accept sym = true
      /\ forall other, In other l -> accept other = true -> level other <= level sym
  | None => forall other, In other l -> accept other = false
  end.

(** [a] is nested less deeply than [b]. *)
Definition shallower (a b : SymbolInfo) : Prop := level a < level b.

(** What holds of a flattened subtree: nothing in it contains the position
    when its root does not, and the entries that contain the position get
    deeper and deeper. *)
Definition scanned `{Helper} (position : Position) (lv : Z) (sym : DocumentSymbol) : Prop :=
  (contains (symbolRange sym) position = false ->
   List.filter (containing position) (addDocumentSymbol lv sym) = [])
  /\ StronglySorted shallower
       (List.filter (containing position) (addDocumentSymbol lv sym)).

(** ** The listeners that the constructor of [Symbols] registers *)

(** The [CursorHold] listener. *)
Definition onCursorHold `{Helper} (bufnr : Z) (env : Env) (w : World) : World :=
  if negb (functionUpdate env) then w
  else
    match buffers w !! bufnr with
    | None => w
    | Some _ => snd (getCurrentFunctionSymbol (Some bufnr) env w)
    end.

(** The [InsertEnter] listener. *)
Definition onInsertEnter (bufnr : Z) (w : World) : World :=
  match buffers w !! bufnr with
  | Some _ => cancel bufnr w
  | None => w
  end.

(** ** Tokens, calls in flight and the token a buffer holds *)





(** The provider was called for buffer [b] with token [t]. *)
Definition issued (b : Z) (t : nat) (w : World) : Prop :=
  exists v, In (GetDocumentSymbol b v t) (effects w).

(** Every token a provider call was given exists and was given to calls of
    one buffer only, and the token in [this.tokenSource] is not cancelled
    and was given to a call of that buffer. *)
Definition tokensIssued (w : World) : Prop :=
  (forall b t, issued b t w -> (t < length (tokens w))%nat)
  /\ (forall b b' t, issued b t w -> issued b' t w -> b = b')
  /\ (forall b buf t,
         buffers w !! b = Some buf -> tokenSource buf = Some t ->
         isCancellationRequested t w = false /\ issued b t w).

(** What a step may do to the tokens: cancelled tokens stay cancelled and
    no token disappears. *)
Definition tokensKept (w w' : World) : Prop :=
  (length (tokens w) <= length (tokens w'))%nat
  /\ forall t, isCancellationRequested t w = true -> isCancellationRequested t w' = true.

(** * Properties *)

(** ** Frame lemmas of the stores *)

Lemma lookup_updateBuffer (this b : Z) (f : SymbolsBuffer -> SymbolsBuffer) (w : World) :
  buffers (updateBuffer this f w) !! b
  = if decide (this = b) then f <$> buffers w !! b else buffers w !! b.
Proof.
  unfold updateBuffer, with_buffers; simpl.
  destruct (decide (this = b)) as [->|Hne].
  - by rewrite lookup_alter_eq.
  - by rewrite lookup_alter_ne.
Qed.

Lemma committed_updateBuffer (this b : Z) (f : SymbolsBuffer -> SymbolsBuffer) (w : World) :
  (forall buf, version (f buf) = version buf /\ symbols (f buf) = symbols buf) ->
  committed b (updateBuffer this f w) = committed b w.
Proof.
  intros Hf. unfold committed. rewrite lookup_updateBuffer.
  destruct (decide (this = b)); [|done].
  destruct (buffers w !! b) as [buf|]; simpl; [|done].
  by destruct (Hf buf) as [-> ->].
Qed.

Lemma cancel_committed (this b : Z) (w : World) :
  committed b (cancel this w) = committed b w /\ arrays (cancel this w) = arrays w
  /\ effects (cancel this w) = effects w /\ documents (cancel this w) = documents w
  /\ inflight (cancel this w) = inflight w.
Proof.
  unfold cancel.
  destruct (buffers (updateBuffer this (set_fetchSymbols false) w) !! this) as [buf|] eqn:E.
  - destruct (tokenSource buf) as [t|].
    + repeat split; try reflexivity.
      rewrite committed_updateBuffer by (intros []; done).
      unfold committed; simpl. fold (committed b (updateBuffer this (set_fetchSymbols false) w)).
      apply committed_updateBuffer. by intros [].
    + repeat split; try reflexivity. apply committed_updateBuffer. by intros [].
  - repeat split; try reflexivity. apply committed_updateBuffer. by intros [].
Qed.

(** ** The fetch and the snapshot *)

Lemma fetchSymbols_call_committed `{Helper} (this b : Z) (w : World) :
  committed b (snd (_fetchSymbols_call this w)) = committed b w
  /\ arrays (snd (_fetchSymbols_call this w)) = arrays w.
Proof.
  unfold _fetchSymbols_call.
  destruct (buffers w !! this) as [buf|], (documents w !! this) as [doc|]; try done.
  case_bool_decide; [done|]. simpl. split; [|done].
  unfold committed; simpl.
  rewrite lookup_alter. destruct (decide (this = b)) as [->|]; simpl; [|done].
  by destruct (buffers w !! b) as [[]|].
Qed.

Lemma providerReturns_discarded `{Helper} (f : Fetch) (symbols : option ProviderResult)
      (w : World) (b : Z) :
  symbols = None \/ isCancellationRequested (f_token f) w = true ->
  committed b (providerReturns f symbols w) = committed b w
  /\ arrays (providerReturns f symbols w) = arrays w
  /\ effects (providerReturns f symbols w) = effects w.
Proof.
  intros Hdiscard. unfold providerReturns, _fetchSymbols_resume.
  set (w0 := with_inflight _ w).
  assert (Hframe : committed b (updateBuffer (f_this f) (set_tokenSource None) w0) = committed b w).
  { rewrite committed_updateBuffer by (intros []; done). done. }
  destruct symbols as [symbols|]; [|done].
  destruct Hdiscard as [|Hc]; [done|].
  replace (isCancellationRequested (f_token f) (updateBuffer (f_this f) (set_tokenSource None) w0))
    with (isCancellationRequested (f_token f) w) by done.
  by rewrite Hc.
Qed.

Lemma providerReturns_committed `{Helper} (f : Fetch) (symbols : ProviderResult)
      (w : World) (buf : SymbolsBuffer) :
  buffers w !! f_this f = Some buf ->
  isCancellationRequested (f_token f) w = false ->
  let w' := providerReturns f (Some symbols) w in
  committed (f_this f) w' = Some (Some (f_version f), Some (length (arrays w)))
  /\ snapshot (f_this f) w' = Some (flatten symbols).
Proof.
  intros Hbuf Hc w'. subst w'. unfold providerReturns, _fetchSymbols_resume.
  set (w0 := with_inflight _ w).
  replace (isCancellationRequested (f_token f) (updateBuffer (f_this f) (set_tokenSource None) w0))
    with (isCancellationRequested (f_token f) w) by done.
  rewrite Hc. simpl.
  unfold committed, snapshot; simpl.
  rewrite !lookup_alter_eq. subst w0; simpl. rewrite Hbuf; simpl.
  split; [done|].
  rewrite lookup_app_r by lia. by rewrite Nat.sub_diag.
Qed.

(** C6, as the code has it.  A fetch whose provider result is absent (null
    or undefined), or whose token was cancelled while the provider was
    awaited, changes no snapshot: neither the call nor the return changes
    the version, the snapshot reference or any array, and nothing is
    published.  An empty array is not absent: when the token is not
    cancelled it is committed, the snapshot becomes empty and the version
    becomes the version sampled at the call. *)
Theorem fetch_without_result_keeps_snapshot `{Helper} (w : World) :
  (forall this b,
      committed b (snd (_fetchSymbols_call this w)) = committed b w
      /\ arrays (snd (_fetchSymbols_call this w)) = arrays w)
  /\ (forall f symbols b,
      symbols = None \/ isCancellationRequested (f_token f) w = true ->
      committed b (providerReturns f symbols w) = committed b w
      /\ arrays (providerReturns f symbols w) = arrays w
      /\ snapshot b (providerReturns f symbols w) = snapshot b w
      /\ effects (providerReturns f symbols w) = effects w)
  /\ (forall f buf empty,
      empty = SymbolInformations [] \/ empty = DocumentSymbols [] ->
      buffers w !! f_this f = Some buf ->
      isCancellationRequested (f_token f) w = false ->
      let w' := providerReturns f (Some empty) w in
      (version <$> buffers w' !! f_this f) = Some (Some (f_version f))
      /\ snapshot (f_this f) w' = Some []).
Proof.
  split; [|split].
  - intros this b. apply fetchSymbols_call_committed.
  - intros f symbols b Hd.
    destruct (providerReturns_discarded f symbols w b Hd) as (Hc & Ha & He).
    repeat split; try done.
    unfold snapshot. unfold committed in Hc.
    destruct (buffers (providerReturns f symbols w) !! b) as [b1|],
             (buffers w !! b) as [b2|]; simpl in Hc; try done.
    injection Hc as _ ->. by rewrite Ha.
  - intros f buf empty Hempty Hbuf Hc w'.
    destruct (providerReturns_committed f empty w buf Hbuf Hc) as [Hcm Hsn].
    fold w' in Hcm, Hsn. split.
    + unfold committed in Hcm. destruct (buffers w' !! f_this f); simpl in *; congruence.
    + rewrite Hsn. by destruct Hempty as [-> | ->].
Qed.

Lemma fetch_without_result_keeps_snapshot_witness :
  let w := run (Sample.fetched (DocumentSymbols [Sample.treeABC]))
               [Change 1; CallGetSymbols 1] in
  let f := {| f_this := 1; f_version := 2; f_token := 1 |} in
  let cancelled := cancel 1 w in
  let other := Some (DocumentSymbols [Sample.treeCallback]) in
  ((map text <$> snapshot 1 w) = Some ["A"; "B"; "C"]
   /\ committed 1 w = Some (Some 1, Some 1%nat)
   /\ inflight w = [f])
  /\ (snapshot 1 (providerReturns f None w) = snapshot 1 w
      /\ committed 1 (providerReturns f None w) = committed 1 w)
  /\ (isCancellationRequested (f_token f) cancelled = true
      /\ snapshot 1 (providerReturns f other cancelled) = snapshot 1 w
      /\ committed 1 (providerReturns f other cancelled) = committed 1 w)
  /\ (snapshot 1 (providerReturns f (Some (SymbolInformations [])) w) = Some []
      /\ (version <$> buffers (providerReturns f (Some (SymbolInformations [])) w) !! 1)
         = Some (Some 2)).
Proof.
  intros w f cancelled other.
  pose proof (fetch_without_result_keeps_snapshot w) as Hw.
  destruct Hw as (_ & Hkeep & Hempty).
  pose proof (fetch_without_result_keeps_snapshot cancelled) as Hcancelled.
  destruct Hcancelled as (_ & Hdiscard & _).
  assert (Hflag : isCancellationRequested (f_token f) cancelled = true)
    by (vm_compute; reflexivity).
  assert (Hsame : snapshot 1 cancelled = snapshot 1 w
                  /\ committed 1 cancelled = committed 1 w)
    by (vm_compute; split; reflexivity).
  split; [vm_compute; repeat split|]. split; [|split].
  - destruct (Hkeep f None 1) as (Hc & _ & Hs & _); [left; reflexivity|].
    split; assumption.
  - destruct (Hdiscard f other 1) as (Hc & _ & Hs & _); [right; exact Hflag|].
    split; [exact Hflag|]. destruct Hsame as [Hs' Hc'].
    rewrite Hs, Hc, Hs', Hc'. split; reflexivity.
  - destruct (buffers w !! f_this f) as [buf|] eqn:Hbuf; [|vm_compute in Hbuf; discriminate].
    pose proof (Hempty f buf (SymbolInformations [])) as Hcommit.
    assert (Hshape : SymbolInformations [] = SymbolInformations []
                     \/ SymbolInformations [] = DocumentSymbols [])
      by (left; reflexivity).
    assert (Hlive : isCancellationRequested (f_token f) w = false)
      by (vm_compute; reflexivity).
    destruct (Hcommit Hshape Hbuf Hlive) as [Hv Hs].
    split; [exact Hs|exact Hv].
Defined.

(** C6 as stated fails for the empty array.  The cache holds the three
    symbols of [treeABC] at version 1, the document moves to version 2, and
    the provider answers the next fetch with an empty array: the snapshot
    is then empty and the version is 2. *)
Lemma empty_result_replaces_snapshot :
  let w0 := run (Sample.fetched (DocumentSymbols [Sample.treeABC])) [Change 1] in
  let w1 := snd (getSymbols (Some (SymbolInformations [])) 1 w0) in
  length <$> snapshot 1 w0 = Some 3%nat
  /\ (version <$> buffers w0 !! 1) = Some (Some 1)
  /\ snapshot 1 w1 = Some []
  /\ (version <$> buffers w1 !! 1) = Some (Some 2).
Proof. vm_compute. repeat split. Qed.

(** ** getSymbols on an unchanged document *)

(** C4.  When the committed version of a buffer is the version of its
    document, two calls of [getSymbols] in a row both return the reference
    held in [this.symbols]; no array changes, so the contents are the same as
    well, and no provider call is issued: the effects, the calls in flight
    and the tokens are what they were. *)
Theorem getSymbols_idempotent `{Helper} (this : Z) (w : World) (buf : SymbolsBuffer)
        (v : Z) (answer1 answer2 : option ProviderResult) :
  buffers w !! this = Some buf ->
  documentVersion this w = Some v ->
  version buf = Some v ->
  let r1 := getSymbols answer1 this w in
  let r2 := getSymbols answer2 this (snd r1) in
  fst r1 = symbols buf /\ fst r2 = symbols buf
  /\ arrays (snd r2) = arrays w
  /\ effects (snd r2) = effects w
  /\ inflight (snd r2) = inflight w
  /\ tokens (snd r2) = tokens w
  /\ committed this (snd r2) = committed this w.
Proof.
  intros Hbuf Hdoc Hv.
  assert (Hone : forall answer w0 buf0,
             buffers w0 !! this = Some buf0 ->
             documentVersion this w0 = Some v ->
             version buf0 = Some v ->
             getSymbols answer this w0
             = (symbols buf0, updateBuffer this (set_autoUpdate true) w0)).
  { intros answer w0 buf0 Hb Hd Hver.
    unfold getSymbols, getSymbols_call, forceSync.
    unfold documentVersion in Hd |- *.
    destruct (documents w0 !! this) as [doc|] eqn:Edoc; [|done].
    rewrite lookup_updateBuffer. rewrite decide_True by done.
    rewrite Hb. simpl.
    replace (documents (updateBuffer this (set_autoUpdate true) w0)) with (documents w0) by done.
    rewrite Edoc, Hd, Hver. by rewrite bool_decide_eq_true_2. }
  intros r1 r2. subst r1 r2.
  rewrite (Hone answer1 w buf Hbuf Hdoc Hv). simpl.
  rewrite (Hone answer2 _ (set_autoUpdate true buf)).
  - simpl. repeat split; try done.
    rewrite !committed_updateBuffer by (intros []; done). done.
  - rewrite lookup_updateBuffer, decide_True by done. by rewrite Hbuf.
  - done.
  - done.
Qed.

Lemma getSymbols_idempotent_witness :
  let w := Sample.fetched (DocumentSymbols [Sample.treeABC]) in
  let r1 := getSymbols None 1 w in
  let r2 := getSymbols None 1 (snd r1) in
  fst r1 = Some 1%nat /\ fst r2 = Some 1%nat /\ effects (snd r2) = effects w.
Proof.
  intros w r1 r2.
  destruct (buffers w !! 1) as [buf|] eqn:Hbuf; [|vm_compute in Hbuf; discriminate].
  assert (Hs : symbols buf = Some 1%nat).
  { vm_compute in Hbuf. injection Hbuf as <-. reflexivity. }
  assert (Hv : version buf = Some 1).
  { vm_compute in Hbuf. injection Hbuf as <-. reflexivity. }
  destruct (getSymbols_idempotent 1 w buf 1 None None Hbuf eq_refl Hv)
    as (H1 & H2 & _ & H4 & _).
  rewrite <- Hs. exact (conj H1 (conj H2 H4)).
Defined.

(** ** Buffers without a document or a provider *)

(** C10.  [bufnr], when absent or zero, is first replaced by the current
    buffer.  If the document of that buffer is missing, not attached, or has
    no documentSymbol provider, [getCurrentFunctionSymbol] returns without a
    value ([None], not [Some ""]) and [getCurrentFunctionInfo] returns the
    empty array; both leave the world as it is: nothing is published and no
    provider call is issued. *)
Theorem unavailable_buffer_returns_nothing `{Helper} (bufnr : option Z) (env : Env)
        (w : World) :
  (documents w !! resolveBufnr bufnr env = None
   \/ exists doc, documents w !! resolveBufnr bufnr env = Some doc
                  /\ (attached doc = false \/ hasProvider env (textDocument doc) = false)) ->
  getCurrentFunctionSymbol bufnr env w = (None, w)
  /\ getCurrentFunctionInfo bufnr env w = ([], w).
Proof.
  intros Hdoc. unfold getCurrentFunctionSymbol, getCurrentFunctionInfo.
  destruct Hdoc as [-> | (doc & -> & [Ha | Hp])]; [done| |].
  - by rewrite Ha.
  - rewrite Hp. by destruct (attached doc).
Qed.

Lemma unavailable_buffer_returns_nothing_witness :
  let env := Sample.env (Sample.pos 25 0) None in
  getCurrentFunctionSymbol (Some 7) env Sample.world = (None, Sample.world)
  /\ getCurrentFunctionInfo (Some 7) env Sample.world = ([], Sample.world).
Proof.
  intros env.
  apply (unavailable_buffer_returns_nothing (Some 7) env Sample.world).
  left. reflexivity.
Defined.

(** ** One fetch at a time *)


(** C1 fails in the code.  [_fetchSymbols] stores its new token source over
    the old one without cancelling it, and after the [await] it clears
    [this.tokenSource] whichever token is stored there.

    Forced path: a second [getSymbols] cancels the first call's token 0 and
    starts token 1; the first call returns and clears [this.tokenSource],
    which held token 1; a third [getSymbols] finds nothing to cancel and
    starts token 2.  Tokens 1 and 2 are both in flight and not cancelled.

    Debounced path: while the call of a [getSymbols] (token 0) is in flight,
    the debounce fires; [_fetchSymbols] starts token 1 and token 0 stays
    uncancelled. *)
Theorem two_fetches_in_flight :
  let forced :=
    run Sample.world
        [CallGetSymbols 1; CallGetSymbols 1; ProviderReturns 0 None; CallGetSymbols 1] in
  let debounced :=
    run Sample.world [CallGetSymbols 1; CallFetchSymbols 1; Timeout 1] in
  map f_token (outstanding 1 forced) = [1; 2]%nat
  /\ tokens forced = [true; false; false]
  /\ map f_token (outstanding 1 debounced) = [0; 1]%nat
  /\ tokens debounced = [false; false].
Proof. vm_compute. repeat split. Qed.

(** C2 fails in the code.  After the first three events of the forced run
    above, token 1 (version 1) is in flight and no longer held by the
    buffer.  The document changes to version 2; [onChange] has no token to
    cancel.  A [getSymbols] starts token 2 for version 2 and commits it.
    Then the provider returns for token 1: its result is committed and the
    version of the snapshot goes from 2 back to 1, while the document is at
    version 2. *)
Theorem stale_fetch_lowers_version :
  let w :=
    run Sample.world
        [CallGetSymbols 1; CallGetSymbols 1; ProviderReturns 0 None; Change 1;
         CallGetSymbols 1;
         ProviderReturns 2 (Some (DocumentSymbols [Sample.treeABC]))] in
  let w' := step w (ProviderReturns 1 (Some (DocumentSymbols [Sample.treeCallback]))) in
  (version <$> buffers w !! 1) = Some (Some 2)
  /\ (map text <$> snapshot 1 w) = Some ["A"; "B"; "C"]
  /\ (version <$> buffers w' !! 1) = Some (Some 1)
  /\ (map text <$> snapshot 1 w') = Some ["main"; "processData() callback"]
  /\ documentVersion 1 w' = Some 2.
Proof. vm_compute. repeat split. Qed.

(** ** The queries and the cache *)

Lemma snapshot_newArray (this : Z) (l : list SymbolInfo) (w : World) (s : list SymbolInfo) :
  snapshot this w = Some s ->
  snapshot this (reverse (length (arrays w)) (snd (newArray l w))) = Some s.
Proof.
  unfold snapshot, reverse, newArray; simpl.
  destruct (buffers w !! this) as [buf|]; [|done].
  destruct (symbols buf) as [r|]; [|done].
  intros Hr. pose proof (lookup_lt_Some _ _ _ Hr) as Hlt.
  rewrite list_lookup_alter_ne by lia. by rewrite lookup_app_l.
Qed.

(** The two queries that filter first work on a new array: they leave the
    cached snapshot as it is. *)
Lemma filtering_queries_keep_snapshot `{Helper} (this : Z) (w : World)
      (s : list SymbolInfo) (symbols : option nat) :
  snapshot this w = Some s ->
  (forall env bufnr position,
      snapshot this (snd (getCurrentFunctionSymbol_scan env bufnr position symbols w)) = Some s)
  /\ (forall inner visualmode supportedSymbols doc reference,
      snapshot this (selectSymbolRange_scan inner visualmode supportedSymbols doc
                                            reference symbols w) = Some s).
Proof.
  intros Hs. split.
  - intros env bufnr position. unfold getCurrentFunctionSymbol_scan.
    destruct (deref symbols w) as [[|x l]|]; try done.
    simpl. pose proof (snapshot_newArray this
      (List.filter (fun s0 => includes functionKinds (kind s0)) (x :: l)) w s Hs) as Hn.
    by destruct (functionUpdate env).
  - intros inner visualmode supportedSymbols doc reference.
    unfold selectSymbolRange_scan.
    destruct (deref symbols w) as [[|x l]|]; try done.
    simpl. pose proof (snapshot_newArray this
      (List.filter (fun s0 => includes supportedSymbols (kind s0)) (x :: l)) w s Hs) as Hn.
    destruct (containingRange supportedSymbols reference (x :: l)); [by destruct inner|].
    match goal with |- context [if ?b then _ else _] => by destruct b end.
Qed.

(** C3 fails in the code.  [getCurrentFunctionInfo] calls [reverse] on the
    array that [getSymbols] returned, which is the array of the cache: after
    the query the snapshot, still the same reference at the same version, is
    in reverse order, and the same query asked again answers with the
    outermost symbol instead of the innermost one. *)
Theorem getCurrentFunctionInfo_reverses_snapshot :
  let w := Sample.fetched (DocumentSymbols [Sample.treeABC]) in
  let env := Sample.env (Sample.pos 25 0) None in
  let first := getCurrentFunctionInfo (Some 1) env w in
  let second := getCurrentFunctionInfo (Some 1) env (snd first) in
  (map text <$> snapshot 1 w) = Some ["A"; "B"; "C"]
  /\ (map text <$> snapshot 1 (snd first)) = Some ["C"; "B"; "A"]
  /\ committed 1 (snd first) = committed 1 w
  /\ fst first = Sample.info "C" (Sample.lineRange 20 30)
  /\ fst second = Sample.info "A" (Sample.lineRange 0 100).
Proof. vm_compute. repeat split. Qed.

(** ** Publishing the current function *)

(** The value that [getCurrentFunctionSymbol] returns does not depend on the
    preference, and with the preference off a snapshot that is not empty is
    answered without any effect. *)
Lemma getCurrentFunctionSymbol_scan_value `{Helper} (env : Env) (update : bool)
      (bufnr : Z) (position : Position) (symbols : option nat) (w : World) :
  let env' := {| currentBufnr := currentBufnr env; cursorPosition := cursorPosition env;
                 selectedRange := selectedRange env; hasProvider := hasProvider env;
                 functionUpdate := update; labels := labels env; answer := answer env |} in
  fst (getCurrentFunctionSymbol_scan env' bufnr position symbols w)
  = fst (getCurrentFunctionSymbol_scan env bufnr position symbols w)
  /\ (update = false ->
      forall x l, deref symbols w = Some (x :: l) ->
      effects (snd (getCurrentFunctionSymbol_scan env' bufnr position symbols w)) = effects w).
Proof.
  intros env'. unfold getCurrentFunctionSymbol_scan. split.
  - destruct (deref symbols w) as [[|x l]|]; try done.
  - intros -> x l ->. done.
Qed.

(** C5 fails in the code.  The branch for an empty or absent snapshot writes
    [coc_current_function] and fires [CocStatusChange] without looking at
    the preference.  Here the preference is off and the committed snapshot
    is empty. *)
Theorem empty_snapshot_is_published_when_off :
  let w := Sample.fetched (SymbolInformations []) in
  let env := Sample.env (Sample.pos 25 0) None in
  let r := getCurrentFunctionSymbol (Some 1) env w in
  functionUpdate env = false
  /\ snapshot 1 w = Some []
  /\ fst r = Some ""
  /\ effects (snd r)
     = effects w ++ [SetVar 1 "coc_current_function" "";
                     Call "coc#util#do_autocmd" ["CocStatusChange"]].
Proof. vm_compute. repeat split. Qed.

(** ** The order of positions *)

Lemma comparePosition_le (p q : Position) : comparePosition p q <= 0 <-> ple p q.
Proof.
  unfold comparePosition, ple.
  destruct (Z.ltb_spec (line q) (line p)), (Z.eqb_spec (line q) (line p)),
    (Z.ltb_spec (character q) (character p)), (Z.eqb_spec (character q) (character p));
    simpl; lia.
Qed.

Lemma comparePosition_ge (p q : Position) : 0 <= comparePosition p q <-> ple q p.
Proof.
  unfold comparePosition, ple.
  destruct (Z.ltb_spec (line q) (line p)), (Z.eqb_spec (line q) (line p)),
    (Z.ltb_spec (character q) (character p)), (Z.eqb_spec (character q) (character p));
    simpl; lia.
Qed.

Lemma ple_trans (p q r : Position) : ple p q -> ple q r -> ple p r.
Proof. unfold ple. lia. Qed.

Lemma ple_antisym (p q : Position) : ple p q -> ple q p -> p = q.
Proof.
  destruct p as [lp cp], q as [lq cq]. unfold ple; simpl. intros Hpq Hqp.
  assert (lp = lq) by lia. assert (cp = cq) by lia. by subst.
Qed.

Lemma contains_spec (r : Range) (p : Position) :
  contains r p = true <-> ple (start r) p /\ ple p (end_ r).
Proof.
  unfold contains, positionInRange.
  rewrite <- comparePosition_ge, <- comparePosition_le.
  destruct (Z.ltb_spec (comparePosition p (start r)) 0),
    (Z.ltb_spec 0 (comparePosition p (end_ r))); simpl; split; try lia; try done.
Qed.

Lemma rangeInRange_spec (a b : Range) :
  rangeInRange a b = true
  <-> (ple (start b) (start a) /\ ple (start a) (end_ b))
      /\ (ple (start b) (end_ a) /\ ple (end_ a) (end_ b)).
Proof.
  unfold rangeInRange. rewrite andb_true_iff.
  fold (contains b (start a)). fold (contains b (end_ a)).
  by rewrite !contains_spec.
Qed.

Lemma strictlyInside_trans (a b c : Range) :
  strictlyInside a b -> strictlyInside b c -> strictlyInside a c.
Proof.
  unfold strictlyInside. rewrite !rangeInRange_spec.
  intros [((Ha1 & Ha2) & (Ha3 & Ha4)) Hab] [((Hb1 & Hb2) & (Hb3 & Hb4)) Hbc].
  split.
  - repeat split; eauto using ple_trans.
  - intros Heq. apply Hab. subst c.
    destruct a as [sa ea], b as [sb eb]; simpl in *.
    f_equal; apply ple_antisym; eauto using ple_trans.
Qed.

(** A position inside a range is inside every range around it. *)
Lemma contains_rangeInRange (a b : Range) (p : Position) :
  rangeInRange a b = true -> contains a p = true -> contains b p = true.
Proof.
  rewrite rangeInRange_spec, !contains_spec.
  intros ((H1 & H2) & (H3 & H4)) (H5 & H6). split; eauto using ple_trans.
Qed.

(** Two ranges that do not overlap have no position in common. *)
Lemma overlap_contains (a b : Range) (p : Position) :
  contains a p = true -> contains b p = true -> overlap a b = true.
Proof.
  rewrite !contains_spec. intros (H1 & H2) (H3 & H4).
  unfold overlap. rewrite andb_true_iff, !Z.leb_le, !comparePosition_le.
  split; eauto using ple_trans.
Qed.

(** ** The current-function scan *)

Lemma find_app_last {A : Type} (f : A -> bool) (l : list A) (x : A) :
  List.find f (l ++ [x])
  = match List.find f l with
    | Some y => Some y
    | None => if f x then Some x else None
    end.
Proof.
  induction l as [|a l IH]; simpl; [done|]. by destruct (f a).
Qed.

(** Filtering by [g] first does not change what [find f] finds, when [f]
    only accepts what [g] accepts. *)
Lemma find_filter {A : Type} (f g : A -> bool) (l : list A) :
  (forall x, f x = true -> g x = true) ->
  List.find f (List.filter g l) = List.find f l.
Proof.
  intros Hfg. induction l as [|a l IH]; simpl; [done|].
  destruct (g a) eqn:Hg; simpl.
  - by rewrite IH.
  - destruct (f a) eqn:Hf; [|done]. apply Hfg in Hf. congruence.
Qed.

Lemma isCurrentFunction_spec (position : Position) (sym : SymbolInfo) :
  isCurrentFunction position sym = true
  <-> exists r, range sym = Some r /\ contains r position = true /\ isCallback sym = false.
Proof.
  unfold isCurrentFunction, contains, isCallback.
  destruct (range sym) as [r|].
  - rewrite andb_true_iff, negb_true_iff. split.
    + intros [? ?]. by exists r.
    + intros (r' & [= <-] & ? & ?). done.
  - split; [done|]. by intros (r' & ? & _).
Qed.

Lemma getCurrentFunctionInfo_scan_value `{Helper} (position : Position)
      (symbols : option nat) (w : World) (l : list SymbolInfo) :
  deref symbols w = Some l ->
  fst (getCurrentFunctionInfo_scan position symbols w)
  = match List.find (isCurrentFunction position) (rev l) with
    | Some sym => infoOf sym
    | None => []
    end.
Proof.
  intros Hl. unfold getCurrentFunctionInfo_scan.
  destruct symbols as [r|]; [|done]. rewrite Hl.
  destruct l as [|x l]; [done|].
  destruct (List.find (isCurrentFunction position) (rev (x :: l))) as [sym|]; [|done].
  unfold infoOf. by destruct (range sym).
Qed.

Lemma getCurrentFunctionSymbol_scan_name `{Helper} (env : Env) (bufnr : Z)
      (position : Position) (symbols : option nat) (w : World) (l : list SymbolInfo) :
  deref symbols w = Some l ->
  fst (getCurrentFunctionSymbol_scan env bufnr position symbols w)
  = Some match List.find (isCurrentFunction position)
                 (rev (List.filter (fun s => includes functionKinds (kind s)) l)) with
         | Some sym => decorate env sym
         | None => ""
         end.
Proof.
  intros Hl. unfold getCurrentFunctionSymbol_scan. rewrite Hl.
  destruct l as [|x l]; [done|]. done.
Qed.

(** C8.  Whatever the snapshot and the position, the symbol that the reverse
    scan stops at never has a text ending in [) callback], and the answers of
    the two queries are those for the snapshot without its callback
    entries: the scan passes over such an entry, also when its range
    contains the position, and goes on to the next candidate.  In
    particular the name in the info array never ends in [) callback]. *)
Theorem callback_is_never_current `{Helper} (env : Env) (bufnr : Z) (position : Position)
        (symbols : option nat) (w : World) (l : list SymbolInfo) :
  deref symbols w = Some l ->
  let others := List.filter (fun s => negb (isCallback s)) l in
  (forall sym, List.find (isCurrentFunction position) (rev l) = Some sym ->
               endsWith (text sym) ") callback" = false)
  /\ fst (getCurrentFunctionInfo_scan position symbols w)
     = match List.find (isCurrentFunction position) (rev others) with
       | Some sym => infoOf sym
       | None => []
       end
  /\ (forall functionName rest,
         fst (getCurrentFunctionInfo_scan position symbols w) = InfoName functionName :: rest ->
         endsWith functionName ") callback" = false)
  /\ fst (getCurrentFunctionSymbol_scan env bufnr position symbols w)
     = Some match List.find (isCurrentFunction position)
                    (rev (List.filter (fun s => includes functionKinds (kind s)) others)) with
            | Some sym => decorate env sym
            | None => ""
            end.
Proof.
  intros Hl others.
  assert (Hnot : forall x, isCurrentFunction position x = true -> negb (isCallback x) = true).
  { intros x Hx. apply isCurrentFunction_spec in Hx as (r & _ & _ & Hcb). by rewrite Hcb. }
  assert (Hfound : forall sym, List.find (isCurrentFunction position) (rev l) = Some sym ->
                               endsWith (text sym) ") callback" = false).
  { intros sym Hsym. apply find_some in Hsym as [_ Hsym].
    apply Hnot in Hsym. by apply negb_true_iff in Hsym. }
  split; [exact Hfound|].
  rewrite (getCurrentFunctionInfo_scan_value position symbols w l Hl).
  rewrite (getCurrentFunctionSymbol_scan_name env bufnr position symbols w l Hl).
  split; [|split].
  - subst others. by rewrite <- filter_rev, find_filter.
  - intros functionName rest.
    destruct (List.find (isCurrentFunction position) (rev l)) as [sym|] eqn:Hsym; [|done].
    unfold infoOf. destruct (range sym); [|done].
    intros [= <- _]. by apply Hfound.
  - subst others. f_equal.
    assert (Hcomm : List.filter (fun s => includes functionKinds (kind s))
                      (List.filter (fun s => negb (isCallback s)) l)
                    = List.filter (fun s => negb (isCallback s))
                        (List.filter (fun s => includes functionKinds (kind s)) l)).
    { clear. induction l as [|a l IH]; cbn [List.filter]; [done|].
      destruct (isCallback a) eqn:Ecb, (includes functionKinds (kind a)) eqn:Ekind;
        cbn [List.filter negb]; rewrite ?Ecb, ?Ekind; cbn [negb]; by rewrite IH. }
    rewrite Hcomm, <- (filter_rev (fun s => negb (isCallback s))).
    by rewrite (find_filter _ (fun s => negb (isCallback s))).
Qed.

Lemma callback_is_never_current_witness :
  let w := Sample.fetched (DocumentSymbols [Sample.treeCallback]) in
  let env := Sample.env (Sample.pos 25 0) None in
  fst (getCurrentFunctionInfo_scan (Sample.pos 25 0) (Some 1%nat) w)
  = Sample.info "main" (Sample.lineRange 0 100)
  /\ fst (getCurrentFunctionSymbol_scan env 1 (Sample.pos 25 0) (Some 1%nat) w) = Some "main".
Proof.
  intros w env.
  destruct (deref (Some 1%nat) w) as [l|] eqn:Hl; [|vm_compute in Hl; discriminate].
  destruct (callback_is_never_current env 1 (Sample.pos 25 0) (Some 1%nat) w l Hl)
    as (_ & Hinfo & _ & Hname).
  rewrite Hinfo, Hname. vm_compute in Hl. injection Hl as <-.
  vm_compute. split; reflexivity.
Defined.

(** ** The containing-range selection *)

Lemma containingRange_strict (supportedSymbols : list string) (reference r : Range)
      (l : list SymbolInfo) :
  containingRange supportedSymbols reference l = Some r -> strictlyInside reference r.
Proof.
  unfold containingRange.
  destruct (List.find _ _) as [sym|] eqn:Hfind; [|done].
  intros Hr. apply find_some in Hfind as [_ Hsym].
  unfold isContaining in Hsym. rewrite Hr in Hsym.
  apply andb_true_iff in Hsym as [Hne Hin]. split; [done|].
  apply negb_true_iff in Hne. unfold equals in Hne.
  apply bool_decide_eq_false in Hne. congruence.
Qed.

Lemma strictlyInside_irrefl (r : Range) : ~ strictlyInside r r.
Proof. by intros [_ ?]. Qed.

Lemma StronglySorted_NoDup {A : Type} (R : A -> A -> Prop) (l : list A) :
  (forall x, ~ R x x) -> StronglySorted R l -> List.NoDup l.
Proof.
  intros Hirr. induction 1 as [|x l Hsorted IH Hall]; constructor; [|done].
  intros Hin. rewrite Forall_forall in Hall. apply (Hirr x), Hall.
  by apply list_elem_of_In.
Qed.

Lemma walk_sorted (supportedSymbols : list string) (l : list SymbolInfo) (n : nat)
      (reference : Range) :
  StronglySorted strictlyInside (reference :: walk supportedSymbols l n reference).
Proof.
  revert reference. induction n as [|n IH]; intros reference; simpl.
  - repeat constructor.
  - destruct (containingRange supportedSymbols reference l) as [r|] eqn:Hr.
    + specialize (IH r). apply containingRange_strict in Hr.
      constructor; [done|].
      apply StronglySorted_inv in IH as [_ Hall].
      constructor; [done|].
      eapply Forall_impl; [exact Hall|]. intros x Hx. simpl in Hx.
      by apply (strictlyInside_trans reference r x).
    + repeat constructor.
Qed.

(** C9, as the code has it.  The range that the search selects contains the
    reference range and is not equal to it.  Without [inner] that range is
    what [selectSymbolRange] selects, so calling it again and again, each
    time on the range selected before, gives ranges each strictly inside
    the next, until there is none: no range is selected twice.  With
    [inner] the range selected is the narrowed one, which the search does not
    speak about. *)
Theorem selection_strictly_enlarges `{Helper} (supportedSymbols : list string)
        (l : list SymbolInfo) (reference : Range) :
  (forall r, containingRange supportedSymbols reference l = Some r ->
             rangeInRange reference r = true /\ r <> reference)
  /\ (forall visualmode doc symbols w,
         deref symbols w = Some l ->
         effects (selectSymbolRange_scan false visualmode supportedSymbols doc
                                         reference symbols w)
         = effects w
           ++ match l with
              | [] => [ShowMessage "No symbols found" "warning"]
              | _ :: _ =>
                  match containingRange supportedSymbols reference l with
                  | Some r => [SelectRange r]
                  | None =>
                      if includes ["v"; "V"; String (ascii_of_nat 22) ""] visualmode
                      then [Command "normal! gv"] else []
                  end
              end)
  /\ (forall n,
         StronglySorted strictlyInside (reference :: walk supportedSymbols l n reference)
         /\ List.NoDup (reference :: walk supportedSymbols l n reference)).
Proof.
  split; [|split].
  - intros r Hr. apply containingRange_strict in Hr as [Hin Hne]. split; [done|congruence].
  - intros visualmode doc symbols w Hl. unfold selectSymbolRange_scan. rewrite Hl.
    destruct l as [|x l]; [done|]. cbn [newArray fst snd].
    destruct (containingRange supportedSymbols reference (x :: l)) as [r|]; [done|].
    match goal with |- context [if ?b then _ else _] => destruct b end; [done|].
    simpl. by rewrite app_nil_r.
  - intros n. pose proof (walk_sorted supportedSymbols l n reference) as Hs.
    split; [done|]. eapply StronglySorted_NoDup; [|exact Hs].
    apply strictlyInside_irrefl.
Qed.

Lemma selection_strictly_enlarges_witness :
  let l := flatten (DocumentSymbols [Sample.treeABC]) in
  let w := Sample.fetched (DocumentSymbols [Sample.treeABC]) in
  (rangeInRange (Sample.lineRange 20 30) (Sample.lineRange 10 50) = true
   /\ Sample.lineRange 10 50 <> Sample.lineRange 20 30)
  /\ effects (selectSymbolRange_scan false "v" ["Function"] (Sample.document 1)
                                     (Sample.lineRange 20 30) (Some 1%nat) w)
     = effects w ++ [SelectRange (Sample.lineRange 10 50)].
Proof.
  intros l w.
  destruct (selection_strictly_enlarges ["Function"] l (Sample.lineRange 20 30))
    as (Hstrict & Heffects & _).
  split.
  - apply Hstrict. reflexivity.
  - rewrite (Heffects "v" (Sample.document 1) (Some 1%nat) w); reflexivity.
Defined.

(** C9 as stated fails with [inner].  The cursor is in the body of [f];
    the first call selects the body, lines 1 to 2.  The second call, in
    visual mode on that selection, finds [f] again and selects the same
    range. *)
Lemma inner_selection_repeats :
  let w := Sample.fetched (DocumentSymbols [Sample.treeF]) in
  let selected := {| start := Sample.pos 1 2; end_ := Sample.pos 2 3 |} in
  let first := snd (selectSymbolRange true "" ["Function"]
                      (Sample.env (Sample.pos 1 2) None) w) in
  let second := snd (selectSymbolRange true "v" ["Function"]
                       (Sample.selecting selected) first) in
  effects first = effects w ++ [SelectRange selected]
  /\ effects second = effects first ++ [SelectRange selected].
Proof. vm_compute. split; reflexivity. Qed.

(** ** The reverse scan over a flattened tree *)

Lemma insertSorted_Permutation {A : Type} (compare : A -> A -> Z) (x : A) (l : list A) :
  Permutation (insertSorted compare x l) (x :: l).
Proof.
  induction l as [|y l IH]; simpl; [done|].
  destruct (0 <? compare x y); [|done].
  rewrite IH. apply perm_swap.
Qed.

Lemma sort_Permutation {A : Type} (compare : A -> A -> Z) (l : list A) :
  Permutation (sort compare l) l.
Proof.
  unfold sort. induction l as [|x l IH]; simpl; [done|].
  rewrite insertSorted_Permutation. by constructor.
Qed.

(** Induction on a symbol tree, with the property for all children. *)
Lemma DocumentSymbol_tree_ind (P : DocumentSymbol -> Prop) :
  (forall name detail kind range selectionRange children,
      Forall P children ->
      P (mkDocumentSymbol name detail kind range selectionRange children)) ->
  forall sym, P sym.
Proof.
  intros Hnode. fix IH 1. intros [name detail kind range selectionRange children].
  apply Hnode. induction children as [|c children IHc]; constructor.
  - apply IH.
  - apply IHc.
Qed.

Section Flattened.
Context `{Helper}.

(** The flattened children of a node, in the order of the sort. *)
Lemma addDocumentSymbol_node (lv : Z) name detail kind range selectionRange children :
  exists chunks,
    addDocumentSymbol lv (mkDocumentSymbol name detail kind range selectionRange children)
    = {| lnum := line (start selectionRange) + 1;
         col := character (start selectionRange) + 1;
         text := name; level := lv; kind := getSymbolKind kind;
         range := Some range; selectionRange := Some selectionRange;
         containerName := None |} :: concat chunks
    /\ Permutation chunks (map (addDocumentSymbol (lv + 1)) children).
Proof.
  eexists. split; [reflexivity|].
  rewrite sort_Permutation. by rewrite map_map.
Qed.

Lemma flatten_forest (forest : list DocumentSymbol) :
  exists chunks,
    flatten (DocumentSymbols forest) = concat chunks
    /\ Permutation chunks (map (addDocumentSymbol 0) forest).
Proof.
  eexists. split; [reflexivity|]. by rewrite sort_Permutation.
Qed.

(** Every entry of a flattened subtree is at the level of its root or
    deeper. *)
Lemma addDocumentSymbol_level (sym : DocumentSymbol) :
  forall lv, Forall (fun s => lv <= level s) (addDocumentSymbol lv sym).
Proof.
  induction sym as [name detail kind range selectionRange children IH]
    using DocumentSymbol_tree_ind.
  intros lv.
  destruct (addDocumentSymbol_node lv name detail kind range selectionRange children)
    as (chunks & -> & Hperm).
  constructor; [simpl; lia|].
  rewrite Forall_forall. intros s Hs.
  apply list_elem_of_In, in_concat in Hs as (chunk & Hchunk & Hs).
  eapply Permutation_in in Hchunk; [|exact Hperm].
  apply in_map_iff in Hchunk as (c & <- & Hc).
  rewrite Forall_forall in IH. apply list_elem_of_In in Hc.
  specialize (IH c Hc (lv + 1)). rewrite Forall_forall in IH.
  apply list_elem_of_In in Hs. specialize (IH s Hs). simpl in IH. lia.
Qed.
End Flattened.

Lemma ForallOrdPairs_Permutation {A : Type} (R : A -> A -> Prop) (l l' : list A) :
  (forall a b, R a b -> R b a) ->
  Permutation l l' -> ForallOrdPairs R l -> ForallOrdPairs R l'.
Proof.
  intros Hsym Hperm. induction Hperm as [|x l l' Hperm IH|x y l|l l' l'' _ IH1 _ IH2].
  - done.
  - intros Hfop. inversion Hfop as [|? ? Hall Hrest]; subst.
    constructor; [|by apply IH].
    rewrite Forall_forall in Hall |- *. intros b Hb. apply Hall.
    apply list_elem_of_In. apply list_elem_of_In in Hb.
    eapply Permutation_in; [symmetry; exact Hperm|done].
  - intros Hfop. inversion Hfop as [|? ? Hally Hrest]; subst.
    inversion Hrest as [|? ? Hallx Hrest']; subst.
    inversion Hally as [|? ? Hyx Hally']; subst.
    constructor; [|by constructor].
    constructor; [by apply Hsym|done].
  - intros Hfop. by apply IH2, IH1.
Qed.

Lemma ForallOrdPairs_map {A B : Type} (f : A -> B) (R : B -> B -> Prop) (l : list A) :
  ForallOrdPairs (fun a b => R (f a) (f b)) l -> ForallOrdPairs R (map f l).
Proof.
  induction 1 as [|a l Hall _ IH]; simpl; constructor; [|done].
  rewrite Forall_forall in Hall. rewrite Forall_forall. intros b Hb.
  apply list_elem_of_In, in_map_iff in Hb as (a' & <- & Ha').
  apply Hall. by apply list_elem_of_In.
Qed.

Lemma ForallOrdPairs_impl_In {A : Type} (R R' : A -> A -> Prop) (l : list A) :
  (forall a b, In a l -> In b l -> R a b -> R' a b) ->
  ForallOrdPairs R l -> ForallOrdPairs R' l.
Proof.
  intros Himpl Hfop. induction Hfop as [|a l Hall _ IH]; constructor.
  - rewrite Forall_forall in Hall. rewrite Forall_forall. intros b Hb.
    apply Himpl; [by left|right; by apply list_elem_of_In|by apply Hall].
  - apply IH. intros x y Hx Hy. apply Himpl; by right.
Qed.

Lemma pairwiseDisjoint_pairs (l : list Range) :
  pairwiseDisjoint l = true -> ForallOrdPairs (fun a b => overlap a b = false) l.
Proof.
  induction l as [|r l IH]; simpl; [constructor|].
  rewrite andb_true_iff, forallb_forall. intros [Hall Hrest].
  constructor; [|by apply IH].
  rewrite Forall_forall. intros b Hb. apply list_elem_of_In in Hb.
  by apply negb_true_iff, Hall.
Qed.

Section Scan.
Variable position : Position.

Lemma filter_concat_nil (chunks : list (list SymbolInfo)) :
  Forall (fun chunk => List.filter (containing position) chunk = []) chunks ->
  List.filter (containing position) (concat chunks) = [].
Proof.
  induction 1 as [|chunk chunks Hnil _ IH]; simpl; [done|].
  by rewrite List.filter_app, Hnil, IH.
Qed.

(** When at most one chunk has entries that contain the position, the
    entries that contain it are those of that chunk. *)
Lemma filter_concat_sorted (chunks : list (list SymbolInfo)) :
  ForallOrdPairs (fun x y => List.filter (containing position) x = []
                             \/ List.filter (containing position) y = []) chunks ->
  Forall (fun chunk => StronglySorted shallower (List.filter (containing position) chunk))
         chunks ->
  StronglySorted shallower (List.filter (containing position) (concat chunks)).
Proof.
  induction 1 as [|chunk chunks Hone _ IH]; simpl; [constructor|].
  intros Hsorted. inversion Hsorted as [|? ? Hchunk Hrest]; subst.
  rewrite List.filter_app.
  destruct (List.filter (containing position) chunk) as [|s ss] eqn:Hfilter.
  - by apply IH.
  - rewrite filter_concat_nil, app_nil_r; [done|].
    eapply Forall_impl; [exact Hone|]. simpl. by intros x [|].
Qed.
End Scan.

Section Nested.
Context `{Helper}.
Variable position : Position.

Lemma siblings_scanned (lv : Z) (siblings : list DocumentSymbol)
      (chunks : list (list SymbolInfo)) :
  Permutation chunks (map (addDocumentSymbol lv) siblings) ->
  pairwiseDisjoint (map symbolRange siblings) = true ->
  Forall (scanned position lv) siblings ->
  StronglySorted shallower (List.filter (containing position) (concat chunks))
  /\ (Forall (fun c => contains (symbolRange c) position = false) siblings ->
      List.filter (containing position) (concat chunks) = []).
Proof.
  intros Hperm Hdisjoint Hscanned. rewrite Forall_forall in Hscanned.
  assert (Hchunk : forall chunk, In chunk chunks ->
            exists c, In c siblings /\ chunk = addDocumentSymbol lv c).
  { intros chunk Hin. eapply Permutation_in in Hin; [|exact Hperm].
    apply in_map_iff in Hin as (c & <- & Hc). by exists c. }
  split.
  - apply filter_concat_sorted.
    + eapply ForallOrdPairs_Permutation; [|symmetry; exact Hperm|].
      { intros a b [|]; [by right|by left]. }
      apply ForallOrdPairs_map.
      apply pairwiseDisjoint_pairs in Hdisjoint.
      assert (Hpairs : ForallOrdPairs
                (fun a b => overlap (symbolRange a) (symbolRange b) = false) siblings).
      { clear -Hdisjoint. induction siblings as [|c l IH]; [constructor|].
        simpl in Hdisjoint. inversion Hdisjoint as [|? ? Hall Hrest]; subst.
        constructor; [|by apply IH].
        rewrite Forall_forall in Hall. rewrite Forall_forall. intros b Hb.
        apply Hall. apply list_elem_of_In. apply in_map. by apply list_elem_of_In. }
      eapply ForallOrdPairs_impl_In; [|exact Hpairs].
      intros a b Ha Hb Hab. simpl.
      destruct (contains (symbolRange a) position) eqn:Hca.
      * right. apply (Hscanned b); [by apply list_elem_of_In|].
        destruct (contains (symbolRange b) position) eqn:Hcb; [|done].
        pose proof (overlap_contains _ _ _ Hca Hcb). congruence.
      * left. apply (Hscanned a); [by apply list_elem_of_In|done].
    + rewrite Forall_forall. intros chunk Hin. apply list_elem_of_In in Hin.
      destruct (Hchunk chunk Hin) as (c & Hc & ->).
      apply (Hscanned c). by apply list_elem_of_In.
  - intros Hnone. rewrite Forall_forall in Hnone.
    apply filter_concat_nil. rewrite Forall_forall. intros chunk Hin.
    apply list_elem_of_In in Hin. destruct (Hchunk chunk Hin) as (c & Hc & ->).
    apply list_elem_of_In in Hc. apply (Hscanned c Hc). by apply Hnone.
Qed.

Lemma properlyNested_scanned (sym : DocumentSymbol) :
  properlyNested sym = true -> forall lv, scanned position lv sym.
Proof.
  induction sym as [name detail kind range selectionRange children IH]
    using DocumentSymbol_tree_ind.
  intros Hnested lv. simpl in Hnested.
  apply andb_true_iff in Hnested as [Hnested Hchildren].
  apply andb_true_iff in Hnested as [Hinside Hdisjoint].
  rewrite forallb_forall in Hinside, Hchildren.
  destruct (addDocumentSymbol_node lv name detail kind range selectionRange children)
    as (chunks & Heq & Hperm).
  assert (Hscanned : Forall (scanned position (lv + 1)) children).
  { rewrite Forall_forall in IH. rewrite Forall_forall. intros c Hc.
    apply IH; [done|]. apply Hchildren. by apply list_elem_of_In. }
  destruct (siblings_scanned (lv + 1) children chunks Hperm Hdisjoint Hscanned)
    as [Hsorted Hnil].
  unfold scanned. rewrite Heq. simpl symbolRange.
  set (root := {| lnum := _ |}).
  assert (Hroot : containing position root = contains range position) by done.
  assert (Hoff : contains range position = false ->
                 List.filter (containing position) (concat chunks) = []).
  { intros Hout. apply Hnil. rewrite Forall_forall. intros c Hc.
    apply list_elem_of_In in Hc.
    destruct (contains (symbolRange c) position) eqn:Hcc; [|done].
    pose proof (contains_rangeInRange _ _ _ (Hinside c Hc) Hcc). congruence. }
  split.
  - intros Hout. simpl. rewrite Hroot, Hout. by apply Hoff.
  - simpl. rewrite Hroot. destruct (contains range position); [|done].
    constructor; [done|].
    pose proof (addDocumentSymbol_level
                  (mkDocumentSymbol name detail kind range selectionRange children) lv)
      as Hlevel.
    rewrite Heq in Hlevel. inversion Hlevel as [|? ? _ Hdeep]; subst.
    rewrite Forall_forall in Hdeep |- *. intros s Hs.
    apply list_elem_of_In, filter_In in Hs as [Hs _].
    assert (Hlv : forall c, In c children -> forall s', In s' (addDocumentSymbol (lv + 1) c) ->
                                                        lv + 1 <= level s').
    { intros c _ s' Hs'. pose proof (addDocumentSymbol_level c (lv + 1)) as Hc.
      rewrite Forall_forall in Hc. apply Hc. by apply list_elem_of_In. }
    apply in_concat in Hs as (chunk & Hchunk & Hs).
    eapply Permutation_in in Hchunk; [|exact Hperm].
    apply in_map_iff in Hchunk as (c & <- & Hc).
    specialize (Hlv c Hc s Hs). unfold shallower, root. simpl. lia.
Qed.

Lemma properForest_sorted (forest : list DocumentSymbol) :
  properForest forest = true ->
  StronglySorted shallower
    (List.filter (containing position) (flatten (DocumentSymbols forest))).
Proof.
  unfold properForest. rewrite andb_true_iff, forallb_forall. intros [Hdisjoint Hnested].
  destruct (flatten_forest forest) as (chunks & -> & Hperm).
  apply (siblings_scanned 0 forest chunks Hperm Hdisjoint).
  rewrite Forall_forall. intros c Hc. apply properlyNested_scanned.
  apply Hnested. by apply list_elem_of_In.
Qed.
End Nested.

Lemma find_filter_andb {A : Type} (f g : A -> bool) (l : list A) :
  List.find f (List.filter g l) = List.find (fun x => g x && f x) l.
Proof.
  induction l as [|a l IH]; simpl; [done|].
  destruct (g a); simpl; [|done]. by rewrite IH.
Qed.

(** In a list whose entries containing the position get deeper and deeper,
    the last accepted entry is the deepest accepted one. *)
Lemma last_accepted_is_deepest (position : Position) (accept : SymbolInfo -> bool)
      (l : list SymbolInfo) :
  (forall s, accept s = true -> containing position s = true) ->
  StronglySorted shallower (List.filter (containing position) l) ->
  innermostAmong accept l (List.find accept (rev l)).
Proof.
  intros Haccept. induction l as [|a l IH]; [by intros _ other []|].
  intros Hsorted. cbn [rev]. rewrite find_app_last.
  assert (Htail : StronglySorted shallower (List.filter (containing position) l)).
  { simpl in Hsorted. destruct (containing position a); [|done].
    by apply StronglySorted_inv in Hsorted as [? _]. }
  specialize (IH Htail).
  destruct (List.find accept (rev l)) as [s|].
  - destruct IH as (Hin & Hs & Hmax). repeat split; [by right|done|].
    intros other [-> | Hother] Hacc; [|by apply Hmax].
    simpl in Hsorted. rewrite (Haccept _ Hacc) in Hsorted.
    apply StronglySorted_inv in Hsorted as [_ Hall].
    rewrite Forall_forall in Hall.
    assert (Hlt : shallower other s).
    { apply Hall. apply list_elem_of_In, filter_In. split; [done|by apply Haccept]. }
    unfold shallower in Hlt. lia.
  - simpl in IH. destruct (accept a) eqn:Ha.
    + repeat split; [by left|done|].
      intros other [-> | Hother] Hacc; [lia|]. rewrite (IH other Hother) in Hacc. done.
    + intros other [-> | Hother]; [done|by apply IH].
Qed.

Lemma isCurrentFunction_containing (position : Position) (sym : SymbolInfo) :
  isCurrentFunction position sym = true -> containing position sym = true.
Proof.
  intros Hsym. apply isCurrentFunction_spec in Hsym as (r & Hr & Hc & _).
  unfold containing. by rewrite Hr.
Qed.

(** C7, as the code has it.  For a snapshot flattened from a properly
    nested tree (children inside their parent, siblings that do not
    overlap), each of the two queries answers with a symbol that is nested
    at least as deeply as every other symbol it would accept: for
    [getCurrentFunctionInfo] the symbols whose range contains the position
    and whose text does not end in [) callback], for
    [getCurrentFunctionSymbol] those of them that are of a function kind;
    the answer is empty only when there is no such symbol.  With
    [A [0,100)] containing [B [10,50)] containing [C [20,30)], position 25
    resolves to [C], position 60 to [A], position 5 to [A], which contains
    it, and position 150, which no symbol contains, to the empty result. *)
Theorem reverse_scan_finds_innermost `{Helper} (forest : list DocumentSymbol)
        (position : Position) :
  properForest forest = true ->
  let l := flatten (DocumentSymbols forest) in
  (exists found,
      innermostAmong (isCurrentFunction position) l found
      /\ forall symbols w,
          deref symbols w = Some l ->
          fst (getCurrentFunctionInfo_scan position symbols w)
          = match found with Some sym => infoOf sym | None => [] end)
  /\ (exists found,
      innermostAmong
        (fun s => includes functionKinds (kind s) && isCurrentFunction position s) l found
      /\ forall env bufnr symbols w,
          deref symbols w = Some l ->
          fst (getCurrentFunctionSymbol_scan env bufnr position symbols w)
          = Some match found with Some sym => decorate env sym | None => "" end)
  /\ (Sample.currentInfo Sample.treeABC (Sample.pos 25 0)
      = Sample.info "C" (Sample.lineRange 20 30)
      /\ Sample.currentInfo Sample.treeABC (Sample.pos 60 0)
         = Sample.info "A" (Sample.lineRange 0 100)
      /\ Sample.currentInfo Sample.treeABC (Sample.pos 5 0)
         = Sample.info "A" (Sample.lineRange 0 100)
      /\ Sample.currentInfo Sample.treeABC (Sample.pos 150 0) = []
      /\ Sample.currentName Sample.treeABC (Sample.pos 25 0) = Some "C"
      /\ Sample.currentName Sample.treeABC (Sample.pos 60 0) = Some "A"
      /\ Sample.currentName Sample.treeABC (Sample.pos 5 0) = Some "A"
      /\ Sample.currentName Sample.treeABC (Sample.pos 150 0) = Some "").
Proof.
  intros Hproper l.
  pose proof (properForest_sorted position forest Hproper) as Hsorted. fold l in Hsorted.
  split; [|split].
  - exists (List.find (isCurrentFunction position) (rev l)). split.
    + apply (last_accepted_is_deepest position); [|done].
      apply isCurrentFunction_containing.
    + intros symbols w Hl. by apply getCurrentFunctionInfo_scan_value.
  - exists (List.find (fun s => includes functionKinds (kind s) && isCurrentFunction position s)
                      (rev l)).
    split.
    + apply (last_accepted_is_deepest position); [|done].
      intros s Hs. apply andb_true_iff in Hs as [_ Hs].
      by apply isCurrentFunction_containing.
    + intros env bufnr symbols w Hl.
      rewrite (getCurrentFunctionSymbol_scan_name env bufnr position symbols w l Hl).
      by rewrite <- filter_rev, find_filter_andb.
  - vm_compute. repeat split.
Qed.

Lemma reverse_scan_finds_innermost_witness :
  properForest [Sample.treeABC] = true
  /\ exists found,
      innermostAmong (isCurrentFunction (Sample.pos 25 0))
                     (flatten (DocumentSymbols [Sample.treeABC])) found.
Proof.
  split; [reflexivity|].
  destruct (reverse_scan_finds_innermost [Sample.treeABC] (Sample.pos 25 0) eq_refl)
    as ((found & Hfound & _) & _).
  exists found. exact Hfound.
Defined.

(** C7 as stated fails.  Position 5 lies in [A [0,100)]: both queries
    answer [A], not the empty result.  And the scan does not always answer
    with the most deeply nested symbol that contains the position.  In
    [treeCallback] the deepest symbol around position 25 is the callback
    entry at level 1, and the answer is [main] at level 0.  In
    [treeAdjacent], which is not properly nested because [X] and [Z] share
    position 10, the deepest symbol around position 10 is [Y] at level 2,
    and the answer is [Z] at level 1. *)
Lemma position_5_resolves_to_A :
  (Sample.currentInfo Sample.treeABC (Sample.pos 5 0) = Sample.info "A" (Sample.lineRange 0 100)
   /\ Sample.currentInfo Sample.treeABC (Sample.pos 5 0) <> []
   /\ Sample.currentName Sample.treeABC (Sample.pos 5 0) = Some "A")
  /\ (properForest [Sample.treeCallback] = true
      /\ map (fun s => (text s, level s))
             (List.filter (containing (Sample.pos 25 0))
                          (flatten (DocumentSymbols [Sample.treeCallback])))
         = [("main", 0); ("processData() callback", 1)]
      /\ Sample.currentInfo Sample.treeCallback (Sample.pos 25 0)
         = Sample.info "main" (Sample.lineRange 0 100))
  /\ (properForest [Sample.treeAdjacent] = false
      /\ map (fun s => (text s, level s))
             (List.filter (containing (Sample.pos 10 0))
                          (flatten (DocumentSymbols [Sample.treeAdjacent])))
         = [("W", 0); ("X", 1); ("Y", 2); ("Z", 1)]
      /\ Sample.currentInfo Sample.treeAdjacent (Sample.pos 10 0)
         = Sample.info "Z" (Sample.lineRange 10 20)).
Proof. vm_compute. repeat split. discriminate. Qed.

(** * Further properties of the code *)

(** ** cancel *)

Lemma world_eq (w w' : World) :
  documents w = documents w' -> buffers w = buffers w' -> arrays w = arrays w' ->
  tokens w = tokens w' -> inflight w = inflight w' -> effects w = effects w' -> w = w'.
Proof. destruct w, w'; simpl. by intros -> -> -> -> -> ->. Qed.

Lemma updateBuffer_id (this : Z) (f : SymbolsBuffer -> SymbolsBuffer) (w : World) :
  (forall buf, buffers w !! this = Some buf -> f buf = buf) -> updateBuffer this f w = w.
Proof.
  intros Hf. apply world_eq; try done. simpl. by apply alter_id.
Qed.

Lemma cancel_clears (this : Z) (w : World) (buf : SymbolsBuffer) :
  buffers (cancel this w) !! this = Some buf ->
  tokenSource buf = None /\ fetchSymbols buf = false.
Proof.
  unfold cancel. rewrite lookup_updateBuffer, decide_True by done.
  destruct (buffers w !! this) as [buf0|] eqn:Hbuf; cbn [fmap option_fmap option_map].
  - destruct (tokenSource (set_fetchSymbols false buf0)) as [t|] eqn:Ht.
    + rewrite lookup_updateBuffer, decide_True by done.
      replace (buffers (with_tokens (fun ts => <[t:=true]> ts)
                          (updateBuffer this (set_fetchSymbols false) w)))
        with (buffers (updateBuffer this (set_fetchSymbols false) w)) by done.
      rewrite lookup_updateBuffer, decide_True, Hbuf by done.
      cbn [fmap option_fmap option_map]. by intros [= <-].
    + rewrite lookup_updateBuffer, decide_True, Hbuf by done.
      cbn [fmap option_fmap option_map]. intros [= <-]. done.
  - by rewrite lookup_updateBuffer, decide_True, Hbuf by done.
Qed.

(** X1.  [cancel()] a second time changes nothing: after the first one the
    debounce is cleared and no token is held, for whatever state the buffer
    was in. *)
Theorem cancel_idempotent (this : Z) (w : World) :
  cancel this (cancel this w) = cancel this w
  /\ (forall buf, buffers (cancel this w) !! this = Some buf ->
                  tokenSource buf = None /\ fetchSymbols buf = false).
Proof.
  split; [|apply cancel_clears].
  pose proof (cancel_clears this w) as Hafter.
  set (w1 := cancel this w) in *. unfold cancel at 1.
  assert (Hid : updateBuffer this (set_fetchSymbols false) w1 = w1).
  { apply updateBuffer_id. intros buf Hbuf. destruct (Hafter buf Hbuf) as [_ Hf].
    destruct buf; simpl in *. by subst. }
  rewrite Hid. destruct (buffers w1 !! this) as [buf|] eqn:Hbuf; [|done].
  by destruct (Hafter buf eq_refl) as [-> _].
Qed.

Lemma cancel_idempotent_witness :
  let w := run Sample.world [CallGetSymbols 1; CallFetchSymbols 1] in
  (tokenSource <$> buffers w !! 1) = Some (Some 0%nat)
  /\ (tokenSource <$> buffers (cancel 1 w) !! 1) = Some None.
Proof.
  intros w. split; [reflexivity|].
  destruct (buffers (cancel 1 w) !! 1) as [buf|] eqn:Hbuf; [|vm_compute in Hbuf; discriminate].
  destruct (proj2 (cancel_idempotent 1 w) buf Hbuf) as [Htoken _].
  cbn [fmap option_fmap option_map]. by rewrite Htoken.
Defined.

(** ** Tokens over a run *)

Lemma tokensKept_refl (w w' : World) : tokens w' = tokens w -> tokensKept w w'.
Proof. intros Heq. unfold tokensKept, isCancellationRequested. by rewrite Heq. Qed.

Lemma tokensKept_trans (w1 w2 w3 : World) :
  tokensKept w1 w2 -> tokensKept w2 w3 -> tokensKept w1 w3.
Proof. intros [Hl1 H1] [Hl2 H2]. split; [lia|]. intros t Ht. by apply H2, H1. Qed.

Lemma cancel_tokens (this : Z) (w : World) :
  tokens (cancel this w) = tokens w
  \/ exists buf t, buffers w !! this = Some buf /\ tokenSource buf = Some t
                   /\ tokens (cancel this w) = <[t:=true]> (tokens w).
Proof.
  unfold cancel. rewrite lookup_updateBuffer, decide_True by done.
  destruct (buffers w !! this) as [buf|] eqn:Hbuf; cbn [fmap option_fmap option_map]; [|by left].
  destruct (tokenSource (set_fetchSymbols false buf)) as [t|] eqn:Ht; [|by left].
  right. exists buf, t. by destruct buf.
Qed.

Lemma cancel_tokensKept (this : Z) (w : World) : tokensKept w (cancel this w).
Proof.
  destruct (cancel_tokens this w) as [Heq | (buf & t & _ & _ & Heq)].
  - by apply tokensKept_refl.
  - unfold tokensKept, isCancellationRequested. rewrite Heq, length_insert.
    split; [lia|]. intros t'. destruct (decide (t = t')) as [->|Hne].
    + destruct (tokens w !! t') as [c|] eqn:Hc; [|done].
      rewrite list_lookup_insert_eq; [done|]. by eapply lookup_lt_Some.
    + by rewrite list_lookup_insert_ne.
Qed.

Lemma fetchSymbols_call_tokens `{Helper} (this : Z) (w : World) :
  match fst (_fetchSymbols_call this w) with
  | None => snd (_fetchSymbols_call this w) = w
  | Some f =>
      f_this f = this /\ f_token f = length (tokens w)
      /\ tokens (snd (_fetchSymbols_call this w)) = tokens w ++ [false]
      /\ inflight (snd (_fetchSymbols_call this w)) = inflight w ++ [f]
      /\ buffers (snd (_fetchSymbols_call this w))
         = alter (set_tokenSource (Some (length (tokens w)))) this (buffers w)
  end.
Proof.
  unfold _fetchSymbols_call.
  destruct (buffers w !! this) as [buf|], (documents w !! this) as [doc|]; try done.
  by case_bool_decide.
Qed.

Lemma fetchSymbols_call_tokensKept `{Helper} (this : Z) (w : World) :
  tokensKept w (snd (_fetchSymbols_call this w)).
Proof.
  pose proof (fetchSymbols_call_tokens this w) as Hcall.
  destruct (fst (_fetchSymbols_call this w)) as [f|].
  - destruct Hcall as (_ & _ & Heq & _).
    unfold tokensKept, isCancellationRequested. rewrite Heq, length_app. simpl.
    split; [lia|]. intros t. destruct (tokens w !! t) as [c|] eqn:Hc; [|done].
    by rewrite (lookup_app_l_Some _ _ _ _ Hc).
  - rewrite Hcall. by apply tokensKept_refl.
Qed.

Lemma getSymbols_call_tokensKept `{Helper} (this : Z) (w : World) :
  tokensKept w (snd (getSymbols_call this w)).
Proof.
  unfold getSymbols_call, forceSync.
  destruct (documents w !! this); [|by apply tokensKept_refl].
  destruct (buffers (updateBuffer this (set_autoUpdate true) w) !! this) as [buf|];
    [|by apply tokensKept_refl].
  case_bool_decide; [by apply tokensKept_refl|].
  set (w1 := cancel this (updateBuffer this (set_autoUpdate true) w)).
  assert (H1 : tokensKept w w1).
  { eapply tokensKept_trans; [|apply cancel_tokensKept]. by apply tokensKept_refl. }
  pose proof (fetchSymbols_call_tokensKept this w1) as H2.
  destruct (_fetchSymbols_call this w1) as [[f|] w2]; simpl in *;
    by eapply tokensKept_trans.
Qed.

Lemma providerReturns_tokens `{Helper} (f : Fetch) (symbols : option ProviderResult)
      (w : World) :
  tokens (providerReturns f symbols w) = tokens w.
Proof.
  unfold providerReturns, _fetchSymbols_resume.
  destruct symbols as [symbols|]; [|done].
  by destruct (isCancellationRequested _ _).
Qed.

Lemma providerRejects_frame `{Helper} (f : Fetch) (w : World) :
  tokens (providerRejects f w) = tokens w /\ buffers (providerRejects f w) = buffers w
  /\ arrays (providerRejects f w) = arrays w /\ effects (providerRejects f w) = effects w
  /\ documents (providerRejects f w) = documents w.
Proof. done. Qed.

Lemma step_tokensKept `{Helper} (w : World) (e : Event) : tokensKept w (step w e).
Proof.
  destruct e as [b|b|b|t symbols|t|b|b|b]; simpl.
  - destruct (buffers w !! b); [apply getSymbols_call_tokensKept|by apply tokensKept_refl].
  - by apply tokensKept_refl.
  - destruct (buffers w !! b) as [buf|]; [|by apply tokensKept_refl].
    destruct (fetchSymbols buf); [|by apply tokensKept_refl].
    eapply tokensKept_trans; [|apply fetchSymbols_call_tokensKept]. by apply tokensKept_refl.
  - destruct (List.find _ _); [|by apply tokensKept_refl].
    apply tokensKept_refl, providerReturns_tokens.
  - destruct (List.find _ _); by apply tokensKept_refl.
  - unfold onChange. eapply tokensKept_trans; [|apply cancel_tokensKept].
    by apply tokensKept_refl.
  - apply cancel_tokensKept.
  - unfold dispose. eapply tokensKept_trans; [apply cancel_tokensKept|].
    by apply tokensKept_refl.
Qed.

Lemma run_tokensKept `{Helper} (events : list Event) (w : World) :
  tokensKept w (run w events).
Proof.
  revert w. induction events as [|e events IH]; intros w; [by split|].
  simpl. fold (run (step w e) events).
  exact (tokensKept_trans _ _ _ (step_tokensKept w e) (IH (step w e))).
Qed.

(** X2.  Over any sequence of calls, returns and failures of the provider,
    edits and timeouts, a token that is cancelled stays cancelled, and no
    token is dropped from the store. *)
Theorem cancellation_is_permanent `{Helper} (events : list Event) (w : World) :
  (length (tokens w) <= length (tokens (run w events)))%nat
  /\ forall t, isCancellationRequested t w = true ->
               isCancellationRequested t (run w events) = true.
Proof. apply run_tokensKept. Qed.

Lemma cancellation_is_permanent_witness :
  let w := run Sample.world [CallGetSymbols 1; InsertEnter 1] in
  isCancellationRequested 0 w = true
  /\ isCancellationRequested 0
       (run w [ProviderReturns 0 None; Change 1; CallGetSymbols 1]) = true.
Proof.
  intros w. split; [reflexivity|].
  apply (cancellation_is_permanent [ProviderReturns 0 None; Change 1; CallGetSymbols 1] w).
  reflexivity.
Defined.

(** ** Worlds in which the held token is in flight *)







(** ** The token a buffer holds *)

Lemma tokensIssued_ext (w w' : World) :
  buffers w' = buffers w -> tokens w' = tokens w ->
  (forall b t, issued b t w' <-> issued b t w) ->
  tokensIssued w -> tokensIssued w'.
Proof.
  intros Hb Ht Hi (Hexist & Howner & Hheld). split; [|split].
  - intros b t Hbt. rewrite Ht. by apply (Hexist b), Hi.
  - intros b b' t H1 H2. apply (Howner b b' t); by apply Hi.
  - intros b buf t. rewrite Hb. intros Hbuf Htoken.
    destruct (Hheld b buf t Hbuf Htoken) as [Hflag Hissued].
    split; [|by apply Hi]. unfold isCancellationRequested in *. by rewrite Ht.
Qed.

Lemma tokensIssued_updateBuffer (this : Z) (f : SymbolsBuffer -> SymbolsBuffer) (w : World) :
  (forall buf, tokenSource (f buf) = tokenSource buf \/ tokenSource (f buf) = None) ->
  tokensIssued w -> tokensIssued (updateBuffer this f w).
Proof.
  intros Hf (Hexist & Howner & Hheld). split; [done|]. split; [done|].
  intros b buf t. rewrite lookup_updateBuffer.
  destruct (decide (this = b)) as [<-|Hne]; [|by apply Hheld].
  destruct (buffers w !! this) as [buf0|] eqn:Hbuf; [|done].
  cbn [fmap option_fmap option_map]. intros [= <-] Ht.
  destruct (Hf buf0) as [Hkeep | Hnone]; [|congruence].
  rewrite Hkeep in Ht. exact (Hheld this buf0 t Hbuf Ht).
Qed.

Lemma tokensIssued_cancel (this : Z) (w : World) : tokensIssued w -> tokensIssued (cancel this w).
Proof.
  intros Hw. unfold cancel.
  assert (H1 : tokensIssued (updateBuffer this (set_fetchSymbols false) w)).
  { apply tokensIssued_updateBuffer; [|done]. intros []. by left. }
  set (w1 := updateBuffer this (set_fetchSymbols false) w) in *.
  destruct (buffers w1 !! this) as [buf|] eqn:Hbuf; [|done].
  destruct (tokenSource buf) as [t|] eqn:Ht; [|done].
  destruct H1 as (Hexist & Howner & Hheld).
  destruct (Hheld this buf t Hbuf Ht) as [_ Hmine].
  split; [|split].
  - intros b t' Hbt. simpl. rewrite length_insert. by apply (Hexist b).
  - done.
  - intros b buf' t'. rewrite lookup_updateBuffer.
    replace (buffers (with_tokens (fun ts => <[t:=true]> ts) w1)) with (buffers w1) by done.
    destruct (decide (this = b)) as [<-|Hne].
    + rewrite Hbuf. cbn [fmap option_fmap option_map]. by intros [= <-].
    + intros Hb Ht'. destruct (Hheld b buf' t' Hb Ht') as [Hflag Hissued].
      split; [|done].
      assert (t <> t') by (intros ->; by pose proof (Howner this b t' Hmine Hissued)).
      unfold isCancellationRequested in *. simpl. by rewrite list_lookup_insert_ne.
Qed.

Lemma fetchSymbols_call_effects `{Helper} (this : Z) (w : World) :
  match fst (_fetchSymbols_call this w) with
  | None => True
  | Some f =>
      effects (snd (_fetchSymbols_call this w))
      = effects w ++ [GetDocumentSymbol this (f_version f) (length (tokens w))]
  end.
Proof.
  unfold _fetchSymbols_call.
  destruct (buffers w !! this) as [buf|], (documents w !! this) as [doc|]; try done.
  by case_bool_decide.
Qed.

Lemma tokensIssued_fetchSymbols_call `{Helper} (this : Z) (w : World) :
  tokensIssued w -> tokensIssued (snd (_fetchSymbols_call this w)).
Proof.
  intros (Hexist & Howner & Hheld).
  pose proof (fetchSymbols_call_tokens this w) as Hcall.
  pose proof (fetchSymbols_call_effects this w) as Heffects.
  destruct (fst (_fetchSymbols_call this w)) as [f|]; [|by rewrite Hcall].
  destruct Hcall as (_ & _ & Htokens & _ & Hbuffers).
  set (w' := snd (_fetchSymbols_call this w)) in *.
  assert (Hissued : forall b t, issued b t w'
                                <-> issued b t w \/ (b = this /\ t = length (tokens w))).
  { intros b t. unfold issued. rewrite Heffects. split.
    - intros (v & Hin). apply in_app_iff in Hin as [Hin | [[= <- _ <-] | []]].
      + left. by exists v.
      + by right.
    - intros [(v & Hin) | [-> ->]].
      + exists v. apply in_app_iff. by left.
      + exists (f_version f). apply in_app_iff. right. by left. }
  split; [|split].
  - intros b t Hbt. rewrite Htokens, length_app. simpl.
    apply Hissued in Hbt as [Hbt | [_ ->]]; [|lia]. specialize (Hexist b t Hbt). lia.
  - intros b b' t H1 H2.
    apply Hissued in H1 as [H1 | [-> ->]]; apply Hissued in H2 as [H2 | [-> Heq]].
    + by apply (Howner b b' t).
    + specialize (Hexist b t H1). lia.
    + specialize (Hexist b' _ H2). lia.
    + done.
  - intros b buf t. rewrite Hbuffers, lookup_alter.
    destruct (decide (this = b)) as [<-|Hne].
    + destruct (buffers w !! this) as [buf0|]; [|done].
      cbn [fmap option_fmap option_map]. intros [= <-] [= <-]. split.
      * unfold isCancellationRequested. rewrite Htokens.
        rewrite lookup_app_r by lia. by rewrite Nat.sub_diag.
      * apply Hissued. by right.
    + intros Hb Ht. destruct (Hheld b buf t Hb Ht) as [Hflag Hbt].
      split; [|apply Hissued; by left].
      unfold isCancellationRequested in *. rewrite Htokens.
      specialize (Hexist b t Hbt). by rewrite lookup_app_l by lia.
Qed.

Lemma tokensIssued_providerReturns `{Helper} (f : Fetch) (symbols : option ProviderResult)
      (w : World) :
  tokensIssued w -> tokensIssued (providerReturns f symbols w).
Proof.
  intros Hw.
  set (w0 := with_inflight (List.filter (fun g => negb (f_token g =? f_token f)%nat)) w).
  assert (H0 : tokensIssued (updateBuffer (f_this f) (set_tokenSource None) w0)).
  { apply tokensIssued_updateBuffer; [intros []; by right|].
    by apply (tokensIssued_ext w w0). }
  unfold providerReturns, _fetchSymbols_resume. fold w0.
  destruct symbols as [symbols|]; [|done].
  destruct (isCancellationRequested _ _); [done|].
  eapply tokensIssued_ext; [| | |].
  4: { apply (tokensIssued_updateBuffer (f_this f) (set_symbols (Some (length (arrays w))))).
       { intros []. by left. }
       apply (tokensIssued_updateBuffer (f_this f) (set_version (Some (f_version f)))).
       { intros []. by left. }
       exact H0. }
  - done.
  - done.
  - intros b t. unfold issued. simpl. split.
    + intros (v & Hin). apply in_app_iff in Hin as [Hin | [[=] | []]]. by exists v.
    + intros (v & Hin). exists v. apply in_app_iff. by left.
Qed.

Lemma tokensIssued_getSymbols_call `{Helper} (this : Z) (w : World) :
  tokensIssued w -> tokensIssued (snd (getSymbols_call this w)).
Proof.
  intros Hw. unfold getSymbols_call, forceSync.
  destruct (documents w !! this); [|by apply (tokensIssued_ext w)].
  assert (H1 : tokensIssued (updateBuffer this (set_autoUpdate true) w)).
  { apply tokensIssued_updateBuffer; [|done]. intros []. by left. }
  destruct (buffers (updateBuffer this (set_autoUpdate true) w) !! this) as [buf|]; [|done].
  case_bool_decide; [done|].
  pose proof (tokensIssued_fetchSymbols_call this _ (tokensIssued_cancel this _ H1)) as H2.
  by destruct (_fetchSymbols_call this _) as [[f|] w2].
Qed.

Lemma tokensIssued_step `{Helper} (w : World) (e : Event) :
  tokensIssued w -> tokensIssued (step w e).
Proof.
  intros Hw. destruct e as [b|b|b|t symbols|t|b|b|b]; simpl.
  - destruct (buffers w !! b); [by apply tokensIssued_getSymbols_call|done].
  - apply tokensIssued_updateBuffer; [|done]. intros []. by left.
  - destruct (buffers w !! b) as [buf|]; [|done].
    destruct (fetchSymbols buf); [|done].
    apply tokensIssued_fetchSymbols_call, tokensIssued_updateBuffer; [|done]. intros []. by left.
  - destruct (List.find _ _) as [f|]; [|done]. by apply tokensIssued_providerReturns.
  - destruct (List.find _ _) as [f|]; [|done]. by apply (tokensIssued_ext w).
  - unfold onChange. apply tokensIssued_cancel. by apply (tokensIssued_ext w).
  - by apply tokensIssued_cancel.
  - unfold dispose. apply tokensIssued_updateBuffer; [|by apply tokensIssued_cancel].
    intros []. by left.
Qed.

Lemma tokensIssued_run `{Helper} (events : list Event) (w : World) :
  tokensIssued w -> tokensIssued (run w events).
Proof.
  revert w. induction events as [|e events IH]; intros w Hw; [done|].
  simpl. apply IH. by apply tokensIssued_step.
Qed.

(** X3.  From a world in which every held token is an uncancelled token
    that a provider call of the same buffer was given, every sequence of
    events, provider calls that fail included, leads to such a world: the
    token in [this.tokenSource] is never a cancelled one, and no two buffers
    hold the same token.  The call that the held token was given to may be
    over: a call that fails leaves its token in [this.tokenSource]. *)
Theorem held_token_is_never_cancelled `{Helper} (events : list Event) (w : World) :
  tokensIssued w ->
  tokensIssued (run w events)
  /\ (forall b buf t,
         buffers (run w events) !! b = Some buf -> tokenSource buf = Some t ->
         isCancellationRequested t (run w events) = false)
  /\ (forall b b' buf buf' t,
         buffers (run w events) !! b = Some buf -> buffers (run w events) !! b' = Some buf' ->
         tokenSource buf = Some t -> tokenSource buf' = Some t -> b = b').
Proof.
  intros Hw. pose proof (tokensIssued_run events w Hw) as Hrun.
  split; [done|]. destruct Hrun as (_ & Howner & Hheld). split.
  - intros b buf t Hb Ht. by destruct (Hheld b buf t Hb Ht).
  - intros b b' buf buf' t Hb Hb' Ht Ht'.
    destruct (Hheld b buf t Hb Ht) as [_ H1].
    destruct (Hheld b' buf' t Hb' Ht') as [_ H2].
    by apply (Howner b b' t).
Qed.

Lemma sample_world_tokensIssued : tokensIssued Sample.world.
Proof.
  split; [|split].
  - intros b t (v & []).
  - intros b b' t (v & []).
  - intros b buf t Hb Ht. exfalso.
    destruct (decide (b = 1)) as [->|Hne].
    + vm_compute in Hb. injection Hb as <-. discriminate Ht.
    + unfold Sample.world, newSymbolsBuffer in Hb. simpl in Hb.
      rewrite lookup_insert_ne in Hb by done. by rewrite lookup_empty in Hb.
Qed.

(** A call fails while the buffer holds its token: the buffer goes on
    holding the token of a call that is over, and the token is not
    cancelled. *)
Lemma held_token_is_never_cancelled_witness :
  let w := run Sample.world [CallGetSymbols 1; ProviderRejects 0] in
  inflight w = []
  /\ (tokenSource <$> buffers w !! 1) = Some (Some 0%nat)
  /\ isCancellationRequested 0 w = false.
Proof.
  intros w. split; [reflexivity|]. split; [reflexivity|].
  destruct (buffers w !! 1) as [buf|] eqn:Hbuf; [|vm_compute in Hbuf; discriminate].
  destruct (held_token_is_never_cancelled [CallGetSymbols 1; ProviderRejects 0] Sample.world
              sample_world_tokensIssued) as (_ & Hlive & _).
  apply (Hlive 1 buf 0%nat Hbuf).
  vm_compute in Hbuf. injection Hbuf as <-. reflexivity.
Defined.

(** ** A forced fetch and the calls after it *)

Lemma getSymbols_cached `{Helper} (answer : option ProviderResult) (this : Z) (w : World)
      (buf : SymbolsBuffer) (v : Z) :
  buffers w !! this = Some buf ->
  documentVersion this w = Some v ->
  version buf = Some v ->
  getSymbols answer this w = (symbols buf, updateBuffer this (set_autoUpdate true) w).
Proof.
  intros Hb Hd Hver. unfold getSymbols, getSymbols_call, forceSync.
  unfold documentVersion in Hd |- *.
  destruct (documents w !! this) as [doc|] eqn:Edoc; [|done].
  rewrite lookup_updateBuffer, decide_True, Hb by done.
  cbn [fmap option_fmap option_map].
  replace (documents (updateBuffer this (set_autoUpdate true) w)) with (documents w) by done.
  rewrite Edoc, Hd. replace (version (set_autoUpdate true buf)) with (version buf) by done.
  rewrite Hver. by rewrite bool_decide_eq_true_2.
Qed.

Lemma cancel_frame (this : Z) (w : World) :
  documents (cancel this w) = documents w /\ arrays (cancel this w) = arrays w
  /\ effects (cancel this w) = effects w /\ inflight (cancel this w) = inflight w
  /\ length (tokens (cancel this w)) = length (tokens w)
  /\ (version <$> buffers (cancel this w) !! this) = (version <$> buffers w !! this).
Proof.
  destruct (cancel_committed this this w) as (Hc & Ha & He & Hd & Hi).
  repeat split; try done.
  - destruct (cancel_tokens this w) as [-> | (? & ? & _ & _ & ->)]; [done|].
    by rewrite length_insert.
  - unfold committed in Hc.
    destruct (buffers (cancel this w) !! this), (buffers w !! this); simpl in *; congruence.
Qed.

(** X4.  A [getSymbols] on a cache that is not at the version of its document
    calls the provider once, with a new token and the version of the
    document; when the provider answers with symbols before anything else
    happens, the call returns the flattened result, commits it as a new
    array at that version and fires one update.  The next [getSymbols] is
    answered with the same array and without any effect. *)
Theorem getSymbols_fetches_once `{Helper} (this : Z) (w : World) (doc : Document)
        (buf : SymbolsBuffer) (result : ProviderResult) (answer : option ProviderResult) :
  documents w !! this = Some doc ->
  buffers w !! this = Some buf ->
  version buf <> Some (TextDocument.version (textDocument doc)) ->
  let v := TextDocument.version (textDocument doc) in
  let r1 := getSymbols (Some result) this w in
  let r2 := getSymbols answer this (snd r1) in
  fst r1 = Some (length (arrays w))
  /\ deref (fst r1) (snd r1) = Some (flatten result)
  /\ committed this (snd r1) = Some (Some v, fst r1)
  /\ effects (snd r1)
     = effects w ++ [GetDocumentSymbol this v (length (tokens w));
                     DidUpdate this (updatePayload result)]
  /\ fst r2 = fst r1
  /\ effects (snd r2) = effects (snd r1)
  /\ arrays (snd r2) = arrays (snd r1).
Proof.
  intros Hdoc Hbuf Hstale v r1 r2.
  set (w0 := updateBuffer this (set_autoUpdate true) w).
  set (w1 := cancel this w0).
  destruct (cancel_frame this w0) as (Hd1 & Ha1 & He1 & Hi1 & Hl1 & Hv1).
  fold w1 in Hd1, Ha1, He1, Hi1, Hl1, Hv1.
  assert (Hb0 : buffers w0 !! this = Some (set_autoUpdate true buf)).
  { unfold w0. by rewrite lookup_updateBuffer, decide_True, Hbuf by done. }
  rewrite Hb0 in Hv1. cbn [fmap option_fmap option_map] in Hv1.
  destruct (buffers w1 !! this) as [buf1|] eqn:Hb1; [|done].
  cbn [fmap option_fmap option_map] in Hv1. injection Hv1 as Hv1.
  replace (version (set_autoUpdate true buf)) with (version buf) in Hv1 by done.
  set (f := {| f_this := this; f_version := v; f_token := length (tokens w1) |}).
  set (w2 := with_inflight (fun fs => fs ++ [f])
               (emit (GetDocumentSymbol this v (length (tokens w1)))
                  (updateBuffer this (set_tokenSource (Some (length (tokens w1))))
                     (snd (newTokenSource w1))))).
  assert (Hcall : getSymbols_call this w = (Awaiting f, w2)).
  { unfold getSymbols_call, forceSync. rewrite Hdoc. fold w0. rewrite Hb0.
    replace (version (set_autoUpdate true buf)) with (version buf) by done.
    unfold documentVersion.
    replace (documents w0) with (documents w) by done. rewrite Hdoc.
    rewrite bool_decide_eq_false_2 by congruence.
    fold w1. unfold _fetchSymbols_call. rewrite Hb1, Hd1.
    replace (documents w0) with (documents w) by done. rewrite Hdoc.
    rewrite bool_decide_eq_false_2 by congruence. done. }
  assert (Hb2 : buffers w2 !! f_this f = Some (set_tokenSource (Some (length (tokens w1))) buf1)).
  { simpl. by rewrite lookup_alter_eq, Hb1. }
  assert (Hlive : isCancellationRequested (f_token f) w2 = false).
  { unfold isCancellationRequested. simpl.
    rewrite lookup_app_r by lia. by rewrite Nat.sub_diag. }
  destruct (providerReturns_committed f result w2 _ Hb2 Hlive) as [Hcommitted Hsnapshot].
  assert (Hr1 : r1 = (thisSymbols this (providerReturns f (Some result) w2),
                      providerReturns f (Some result) w2)).
  { unfold r1, getSymbols. by rewrite Hcall. }
  set (w3 := providerReturns f (Some result) w2) in *.
  assert (Harrays : arrays w2 = arrays w).
  { simpl. rewrite Ha1. done. }
  rewrite Harrays in Hcommitted. simpl in Hcommitted, Hsnapshot.
  unfold committed in Hcommitted. unfold snapshot in Hsnapshot.
  destruct (buffers w3 !! this) as [buf3|] eqn:Hb3; [|done].
  cbn [fmap option_fmap option_map] in Hcommitted.
  injection Hcommitted as Hver3 Hsym3. rewrite Hsym3 in Hsnapshot.
  assert (Hfst : fst r1 = Some (length (arrays w))).
  { rewrite Hr1. simpl. unfold thisSymbols. by rewrite Hb3. }
  assert (Heff : effects w3
                 = effects w ++ [GetDocumentSymbol this v (length (tokens w));
                                 DidUpdate this (updatePayload result)]).
  { unfold w3, providerReturns, _fetchSymbols_resume.
    replace (isCancellationRequested (f_token f) _) with
      (isCancellationRequested (f_token f) w2) by done.
    rewrite Hlive. simpl. rewrite He1, Hl1. simpl. by rewrite <- app_assoc. }
  assert (Hsecond : r2 = (fst r1, updateBuffer this (set_autoUpdate true) w3)).
  { unfold r2. rewrite Hr1. simpl.
    rewrite (getSymbols_cached answer this w3 buf3 v Hb3); [| |done].
    - unfold thisSymbols. by rewrite Hb3.
    - unfold documentVersion.
      replace (documents w3) with (documents w).
      + by rewrite Hdoc.
      + unfold w3, providerReturns, _fetchSymbols_resume.
        replace (isCancellationRequested (f_token f) _) with
          (isCancellationRequested (f_token f) w2) by done.
        rewrite Hlive. simpl. by rewrite Hd1. }
  assert (Hthis : thisSymbols this w3 = Some (length (arrays w))).
  { unfold thisSymbols. by rewrite Hb3. }
  rewrite Hsecond, Hr1. cbn [fst snd]. rewrite Hthis.
  split; [done|]. split; [exact Hsnapshot|]. split.
  { unfold committed. rewrite Hb3. cbn [fmap option_fmap option_map].
    by rewrite Hver3, Hsym3. }
  split; [exact Heff|]. by repeat split.
Qed.

Lemma getSymbols_fetches_once_witness :
  let r := getSymbols (Some (DocumentSymbols [Sample.treeABC])) 1 Sample.world in
  fst r = Some 1%nat
  /\ deref (fst r) (snd r) = Some (flatten (DocumentSymbols [Sample.treeABC])).
Proof.
  intros r.
  destruct (getSymbols_fetches_once 1 Sample.world (Sample.document 1)
              {| version := None; autoUpdate := false; symbols := Some 0%nat;
                 tokenSource := None; fetchSymbols := false |}
              (DocumentSymbols [Sample.treeABC]) None)
    as (H1 & H2 & _); [reflexivity|reflexivity|discriminate|].
  exact (conj H1 H2).
Defined.

(** ** Cancelling *)



(** ** The debounced fetch *)

Lemma timeout_after_clear `{Helper} (b : Z) (w : World) :
  (forall buf, buffers w !! b = Some buf -> fetchSymbols buf = false) ->
  step w (Timeout b) = w.
Proof.
  intros Hclear. simpl. destruct (buffers w !! b) as [buf|] eqn:Hbuf; [|done].
  by rewrite (Hclear buf eq_refl).
Qed.

Lemma run_app `{Helper} (w : World) (events events' : list Event) :
  run w (events ++ events') = run (run w events) events'.
Proof. apply fold_left_app. Qed.

(** However often [fetchSymbols()] is called, what is left is one armed
    debounce. *)
Lemma run_fetchSymbols_calls `{Helper} (b : Z) (n : nat) (w : World) :
  run w (repeat (CallFetchSymbols b) (S n)) = updateBuffer b (set_fetchSymbols true) w.
Proof.
  revert w. induction n as [|n IH]; intros w; [done|].
  change (run (step w (CallFetchSymbols b)) (repeat (CallFetchSymbols b) (S n))
          = updateBuffer b (set_fetchSymbols true) w).
  rewrite IH. change (step w (CallFetchSymbols b)) with (updateBuffer b (set_fetchSymbols true) w).
  apply updateBuffer_id. intros buf.
  rewrite lookup_updateBuffer, decide_True by done.
  destruct (buffers w !! b) as [buf0|]; [|done].
  cbn [fmap option_fmap option_map]. by intros [= <-].
Qed.

(** X6.  However often [fetchSymbols()] was called, once or more: when an edit,
    [InsertEnter] or [dispose] follows before the delay has passed, the
    provider is never reached and the expiry of the delay does nothing;
    without such an event the expiry calls the provider once, with a new
    token and the version of the document, when the cache is not at that
    version, and not at all when it is; a second expiry does nothing. *)
Theorem debounce_coalesces_and_cancels `{Helper} (w : World) (b : Z) (n : nat) :
  let calls := repeat (CallFetchSymbols b) (S n) in
  (forall e, In e [Change b; InsertEnter b; Dispose b] ->
             let w' := run w (calls ++ [e]) in
             step w' (Timeout b) = w'
             /\ effects w' = effects w /\ inflight w' = inflight w)
  /\ (forall doc buf,
         documents w !! b = Some doc -> buffers w !! b = Some buf ->
         let v := TextDocument.version (textDocument doc) in
         let w' := run w (calls ++ [Timeout b]) in
         (version buf <> Some v ->
          effects w' = effects w ++ [GetDocumentSymbol b v (length (tokens w))]
          /\ inflight w'
             = inflight w ++ [{| f_this := b; f_version := v; f_token := length (tokens w) |}])
         /\ (version buf = Some v -> effects w' = effects w /\ inflight w' = inflight w)
         /\ step w' (Timeout b) = w').
Proof.
  intros calls. set (w0 := updateBuffer b (set_fetchSymbols true) w).
  assert (Hcalls : forall e, run w (calls ++ [e]) = step w0 e).
  { intros e. unfold calls. by rewrite run_app, run_fetchSymbols_calls. }
  split.
  - intros e He w'. unfold w'. rewrite Hcalls. clear w'. simpl in He.
    destruct He as [<- | [<- | [<- | []]]].
    + change (step w0 (Change b)) with (cancel b (with_documents (alter bumpVersion b) w0)).
      set (w1 := with_documents (alter bumpVersion b) w0).
      destruct (cancel_frame b w1) as (_ & _ & He & Hi & _).
      split; [|by rewrite He, Hi].
      apply (timeout_after_clear b (cancel b w1)). intros buf Hbuf.
      by destruct (cancel_clears b w1 buf Hbuf).
    + change (step w0 (InsertEnter b)) with (cancel b w0).
      destruct (cancel_frame b w0) as (_ & _ & He & Hi & _).
      split; [|by rewrite He, Hi].
      apply (timeout_after_clear b (cancel b w0)). intros buf Hbuf.
      by destruct (cancel_clears b w0 buf Hbuf).
    + change (step w0 (Dispose b)) with (updateBuffer b (set_symbols None) (cancel b w0)).
      destruct (cancel_frame b w0) as (_ & _ & He & Hi & _).
      split; [|split; [exact He|exact Hi]].
      apply (timeout_after_clear b). intros buf.
      rewrite lookup_updateBuffer, decide_True by done.
      destruct (buffers (cancel b w0) !! b) as [buf0|] eqn:Hbuf; [|done].
      cbn [fmap option_fmap option_map]. intros [= <-].
      by destruct (cancel_clears b w0 buf0 Hbuf).
  - intros doc buf Hdoc Hbuf v w'. unfold w'. rewrite Hcalls. clear w'.
    assert (Hb0 : buffers w0 !! b = Some (set_fetchSymbols true buf)).
    { unfold w0. by rewrite lookup_updateBuffer, decide_True, Hbuf by done. }
    set (w2 := updateBuffer b (set_fetchSymbols false) w0).
    assert (Hb2 : buffers w2 !! b = Some (set_fetchSymbols false buf)).
    { unfold w2. rewrite lookup_updateBuffer, decide_True, Hb0 by done. done. }
    assert (Hstep : step w0 (Timeout b) = snd (_fetchSymbols_call b w2)).
    { unfold step. by rewrite Hb0. }
    rewrite Hstep.
    destruct (decide (version buf = Some v)) as [Hcurrent | Hstale].
    + assert (Hcall : _fetchSymbols_call b w2 = (None, w2)).
      { unfold _fetchSymbols_call. rewrite Hb2.
        replace (documents w2) with (documents w) by done. rewrite Hdoc.
        rewrite bool_decide_eq_true_2; [done|]. simpl. by rewrite Hcurrent. }
      rewrite Hcall. cbn [snd]. split; [done|]. split; [done|].
      apply timeout_after_clear. intros buf'. rewrite Hb2. by intros [= <-].
    + assert (Hcall : _fetchSymbols_call b w2
                      = (Some {| f_this := b; f_version := v; f_token := length (tokens w) |},
                         with_inflight (fun fs => fs ++ [{| f_this := b; f_version := v;
                                                            f_token := length (tokens w) |}])
                           (emit (GetDocumentSymbol b v (length (tokens w)))
                              (updateBuffer b (set_tokenSource (Some (length (tokens w))))
                                 (snd (newTokenSource w2)))))).
      { unfold _fetchSymbols_call. rewrite Hb2.
        replace (documents w2) with (documents w) by done. rewrite Hdoc.
        rewrite bool_decide_eq_false_2; [done|]. simpl. fold v. congruence. }
      rewrite Hcall. cbn [snd]. split; [done|]. split; [done|].
      apply timeout_after_clear. intros buf'.
      set (w3 := updateBuffer b (set_tokenSource (Some (length (tokens w))))
                   (snd (newTokenSource w2))).
      change (buffers w3 !! b = Some buf' -> fetchSymbols buf' = false).
      unfold w3. rewrite lookup_updateBuffer, decide_True by done.
      change (buffers (snd (newTokenSource w2))) with (buffers w2). rewrite Hb2.
      cbn [fmap option_fmap option_map]. by intros [= <-].
Qed.

(** Three calls and then an edit reach no provider; one call and five calls
    reach it once. *)
Lemma debounce_coalesces_and_cancels_witness :
  effects (run Sample.world
             [CallFetchSymbols 1; CallFetchSymbols 1; CallFetchSymbols 1; Change 1; Timeout 1])
  = []
  /\ effects (run Sample.world [CallFetchSymbols 1; Timeout 1]) = [GetDocumentSymbol 1 1 0]
  /\ effects (run Sample.world (repeat (CallFetchSymbols 1) 5 ++ [Timeout 1]))
     = [GetDocumentSymbol 1 1 0].
Proof.
  set (buf := {| version := None; autoUpdate := false; symbols := Some 0%nat;
                 tokenSource := None; fetchSymbols := false |}).
  split; [|split].
  - destruct (debounce_coalesces_and_cancels Sample.world 1 2) as [Hcancel _].
    destruct (Hcancel (Change 1)) as (Hstep & Heff & _); [by left|].
    change (effects (step (run Sample.world
                             (repeat (CallFetchSymbols 1) 3 ++ [Change 1])) (Timeout 1)) = []).
    rewrite Hstep. exact Heff.
  - destruct (debounce_coalesces_and_cancels Sample.world 1 0) as [_ Hfire].
    destruct (Hfire (Sample.document 1) buf eq_refl eq_refl) as (Hstale & _).
    destruct Hstale as [Heff _]; [discriminate|]. exact Heff.
  - destruct (debounce_coalesces_and_cancels Sample.world 1 4) as [_ Hfire].
    destruct (Hfire (Sample.document 1) buf eq_refl eq_refl) as (Hstale & _).
    destruct Hstale as [Heff _]; [discriminate|]. exact Heff.
Defined.

(** ** getCurrentFunctionInfo and the cached array *)

Lemma getDocumentSymbols_cached `{Helper} (env : Env) (b : Z) (w : World)
      (buf : SymbolsBuffer) (v : Z) :
  buffers w !! b = Some buf ->
  documentVersion b w = Some v ->
  version buf = Some v ->
  getDocumentSymbols env b w = (symbols buf, updateBuffer b (set_autoUpdate true) w).
Proof.
  intros Hbuf Hdoc Hv. unfold getDocumentSymbols. rewrite Hbuf.
  by apply getSymbols_cached with (v := v).
Qed.

Lemma getCurrentFunctionInfo_scan_world `{Helper} (position : Position) (r : nat)
      (w : World) (l : list SymbolInfo) :
  deref (Some r) w = Some l ->
  snd (getCurrentFunctionInfo_scan position (Some r) w)
  = match l with [] => w | _ :: _ => reverse r w end.
Proof.
  intros Hl. unfold getCurrentFunctionInfo_scan. rewrite Hl.
  destruct l as [|x l]; [done|].
  destruct (List.find _ _) as [sym|]; [|done]. by destruct (range sym).
Qed.

Lemma getCurrentFunctionInfo_cached `{Helper} (bufnr : option Z) (env : Env) (w : World)
      (doc : Document) (buf : SymbolsBuffer) (l : list SymbolInfo) :
  let b := resolveBufnr bufnr env in
  documents w !! b = Some doc ->
  attached doc = true ->
  hasProvider env (textDocument doc) = true ->
  buffers w !! b = Some buf ->
  version buf = Some (TextDocument.version (textDocument doc)) ->
  snapshot b w = Some l ->
  let w' := snd (getCurrentFunctionInfo bufnr env w) in
  snapshot b w' = Some (rev l)
  /\ documents w' = documents w
  /\ buffers w' !! b = Some (set_autoUpdate true buf)
  /\ effects w' = effects w.
Proof.
  intros b Hdoc Hatt Hprov Hbuf Hv Hl w'.
  unfold w', getCurrentFunctionInfo. fold b. rewrite Hdoc, Hatt, Hprov. cbn [negb].
  rewrite (getDocumentSymbols_cached env b w buf (TextDocument.version (textDocument doc)));
    [|done|by unfold documentVersion; rewrite Hdoc|done].
  set (w0 := updateBuffer b (set_autoUpdate true) w).
  assert (Hb0 : buffers w0 !! b = Some (set_autoUpdate true buf)).
  { unfold w0. by rewrite lookup_updateBuffer, decide_True, Hbuf by done. }
  unfold snapshot in Hl. rewrite Hbuf in Hl.
  destruct (symbols buf) as [r|] eqn:Hr; [|done].
  assert (Hderef : deref (Some r) w0 = Some l) by done.
  rewrite (getCurrentFunctionInfo_scan_world (cursorPosition env) r w0 l Hderef).
  unfold snapshot.
  assert (Hbuffers : buffers (match l with [] => w0 | _ :: _ => reverse r w0 end) = buffers w0)
    by by destruct l.
  rewrite Hbuffers, Hb0. cbn [symbols set_autoUpdate]. rewrite Hr.
  destruct l as [|x l]; [done|].
  repeat split; try done.
  unfold reverse. cbn [arrays with_arrays].
  replace (arrays w0) with (arrays w) by done.
  by rewrite list_lookup_alter_eq, Hl.
Qed.

(** X8.  On a cache that is at the version of its document,
    [getCurrentFunctionInfo] leaves the cached symbols in reverse order,
    whatever they are and wherever the cursor is; nothing else of the
    world changes but [autoUpdate], and a second call puts the symbols back
    in their order. *)
Theorem getCurrentFunctionInfo_reverses_cache `{Helper} (bufnr : option Z) (env env' : Env)
        (w : World) (doc : Document) (buf : SymbolsBuffer) (l : list SymbolInfo) :
  let b := resolveBufnr bufnr env in
  documents w !! b = Some doc ->
  attached doc = true ->
  hasProvider env (textDocument doc) = true ->
  hasProvider env' (textDocument doc) = true ->
  resolveBufnr bufnr env' = b ->
  buffers w !! b = Some buf ->
  version buf = Some (TextDocument.version (textDocument doc)) ->
  snapshot b w = Some l ->
  let once := snd (getCurrentFunctionInfo bufnr env w) in
  let twice := snd (getCurrentFunctionInfo bufnr env' once) in
  snapshot b once = Some (rev l)
  /\ committed b once = committed b w
  /\ effects once = effects w
  /\ snapshot b twice = Some l.
Proof.
  intros b Hdoc Hatt Hprov Hprov' Hb' Hbuf Hv Hl once twice.
  destruct (getCurrentFunctionInfo_cached bufnr env w doc buf l Hdoc Hatt Hprov Hbuf Hv Hl)
    as (Hs1 & Hd1 & Hb1 & He1).
  fold b once in Hs1, Hd1, Hb1, He1.
  split; [done|]. split.
  { unfold committed. by rewrite Hb1, Hbuf. }
  split; [done|].
  assert (Hdoc1 : documents once !! resolveBufnr bufnr env' = Some doc).
  { by rewrite Hb', Hd1. }
  rewrite <- Hb' in Hb1, Hs1.
  destruct (getCurrentFunctionInfo_cached bufnr env' once doc (set_autoUpdate true buf) (rev l)
              Hdoc1 Hatt Hprov' Hb1 Hv Hs1) as (Hs2 & _).
  fold twice in Hs2. rewrite Hb' in Hs2. by rewrite rev_involutive in Hs2.
Qed.

Lemma getCurrentFunctionInfo_reverses_cache_witness :
  let w := Sample.fetched (DocumentSymbols [Sample.treeABC]) in
  let env := Sample.env (Sample.pos 60 0) None in
  (map text <$> snapshot 1 (snd (getCurrentFunctionInfo (Some 1) env w)))
  = Some ["C"; "B"; "A"].
Proof.
  intros w env.
  destruct (buffers w !! 1) as [buf|] eqn:Hbuf; [|vm_compute in Hbuf; discriminate].
  destruct (snapshot 1 w) as [l|] eqn:Hl; [|vm_compute in Hl; discriminate].
  assert (Hv : version buf = Some 1).
  { vm_compute in Hbuf. injection Hbuf as <-. reflexivity. }
  destruct (getCurrentFunctionInfo_reverses_cache (Some 1) env env w (Sample.document 1) buf l
              eq_refl eq_refl eq_refl eq_refl eq_refl Hbuf Hv Hl) as (Hrev & _).
  change (resolveBufnr (Some 1) env) with 1 in Hrev.
  rewrite Hrev. vm_compute in Hl. injection Hl as <-. reflexivity.
Defined.

(** ** Publishing and decorating the current function *)

Lemma getCurrentFunctionSymbol_scan_published `{Helper} (env : Env) (b : Z)
      (position : Position) (symbols : option nat) (w : World) :
  functionUpdate env = true ->
  exists functionName,
    fst (getCurrentFunctionSymbol_scan env b position symbols w) = Some functionName
    /\ effects (snd (getCurrentFunctionSymbol_scan env b position symbols w))
       = effects w ++ [SetVar b "coc_current_function" functionName;
                       Call "coc#util#do_autocmd" ["CocStatusChange"]].
Proof.
  intros Hupdate. unfold getCurrentFunctionSymbol_scan. rewrite Hupdate.
  destruct (deref symbols w) as [[|x l]|].
  - exists "". split; [done|]. simpl. by rewrite <- app_assoc.
  - eexists. split; [reflexivity|]. simpl. by rewrite <- app_assoc.
  - exists "". split; [done|]. simpl. by rewrite <- app_assoc.
Qed.

Lemma getSymbols_call_returns `{Helper} (this : Z) (w : World) (doc : Document)
      (buf : SymbolsBuffer) :
  documents w !! this = Some doc -> buffers w !! this = Some buf ->
  version buf = Some (TextDocument.version (textDocument doc)) ->
  getSymbols_call this w = (Returned (symbols buf), updateBuffer this (set_autoUpdate true) w).
Proof.
  intros Hdoc Hbuf Hver. unfold getSymbols_call, forceSync. rewrite Hdoc.
  rewrite lookup_updateBuffer, decide_True, Hbuf by done.
  cbn [fmap option_fmap option_map]. unfold documentVersion.
  replace (documents (updateBuffer this (set_autoUpdate true) w)) with (documents w) by done.
  rewrite Hdoc. replace (version (set_autoUpdate true buf)) with (version buf) by done.
  by rewrite Hver, bool_decide_eq_true_2.
Qed.

Lemma getSymbols_call_awaits `{Helper} (this : Z) (w : World) (doc : Document)
      (buf : SymbolsBuffer) :
  documents w !! this = Some doc -> buffers w !! this = Some buf ->
  let v := TextDocument.version (textDocument doc) in
  let f := {| f_this := this; f_version := v; f_token := length (tokens w) |} in
  version buf <> Some v ->
  exists w2,
    getSymbols_call this w = (Awaiting f, w2)
    /\ effects w2 = effects w ++ [GetDocumentSymbol this v (length (tokens w))]
    /\ isCancellationRequested (f_token f) w2 = false.
Proof.
  intros Hdoc Hbuf v f Hstale.
  set (w0 := updateBuffer this (set_autoUpdate true) w).
  set (w1 := cancel this w0).
  destruct (cancel_frame this w0) as (Hd1 & Ha1 & He1 & Hi1 & Hl1 & Hv1).
  fold w1 in Hd1, Ha1, He1, Hi1, Hl1, Hv1.
  assert (Hb0 : buffers w0 !! this = Some (set_autoUpdate true buf)).
  { unfold w0. by rewrite lookup_updateBuffer, decide_True, Hbuf by done. }
  rewrite Hb0 in Hv1. cbn [fmap option_fmap option_map] in Hv1.
  destruct (buffers w1 !! this) as [buf1|] eqn:Hb1; [|done].
  cbn [fmap option_fmap option_map] in Hv1. injection Hv1 as Hv1.
  replace (version (set_autoUpdate true buf)) with (version buf) in Hv1 by done.
  replace (length (tokens w0)) with (length (tokens w)) in Hl1 by done.
  exists (with_inflight (fun fs => fs ++ [f])
            (emit (GetDocumentSymbol this v (length (tokens w)))
               (updateBuffer this (set_tokenSource (Some (length (tokens w))))
                  (snd (newTokenSource w1))))).
  split; [|split].
  - unfold getSymbols_call, forceSync. rewrite Hdoc. fold w0. rewrite Hb0.
    replace (version (set_autoUpdate true buf)) with (version buf) by done.
    unfold documentVersion.
    replace (documents w0) with (documents w) by done. rewrite Hdoc.
    rewrite bool_decide_eq_false_2 by (fold v; congruence).
    fold w1. unfold _fetchSymbols_call. rewrite Hb1, Hd1.
    replace (documents w0) with (documents w) by done. rewrite Hdoc.
    rewrite bool_decide_eq_false_2 by (fold v; congruence).
    unfold newTokenSource. cbn [fst snd]. fold v. rewrite Hl1. done.
  - simpl. by rewrite He1.
  - unfold isCancellationRequested. simpl.
    rewrite lookup_app_r by lia. by rewrite Hl1, Nat.sub_diag.
Qed.

Lemma providerReturns_effects `{Helper} (f : Fetch) (symbols : option ProviderResult)
      (w : World) :
  isCancellationRequested (f_token f) w = false ->
  effects (providerReturns f symbols w)
  = effects w ++ match symbols with
                 | Some result => [DidUpdate (f_this f) (updatePayload result)]
                 | None => []
                 end.
Proof.
  intros Hlive. unfold providerReturns, _fetchSymbols_resume.
  destruct symbols as [result|]; [|simpl; by rewrite app_nil_r].
  set (w0 := updateBuffer _ _ _).
  replace (isCancellationRequested (f_token f) w0)
    with (isCancellationRequested (f_token f) w) by done.
  by rewrite Hlive.
Qed.

Lemma getSymbols_settled_resolves `{Helper} (answer : option ProviderResult) (this : Z)
      (w : World) :
  getSymbols_settled (Resolves answer) this w
  = (Some (fst (getSymbols answer this w)), snd (getSymbols answer this w)).
Proof.
  unfold getSymbols_settled, getSymbols. by destruct (getSymbols_call this w) as [[value|f] w1].
Qed.

Lemma getCurrentFunctionSymbol_settled_resolves `{Helper} (bufnr : option Z) (env : Env)
      (w : World) :
  getCurrentFunctionSymbol_settled (Resolves (answer env)) bufnr env w
  = (Some (fst (getCurrentFunctionSymbol bufnr env w)),
     snd (getCurrentFunctionSymbol bufnr env w)).
Proof.
  unfold getCurrentFunctionSymbol_settled, getCurrentFunctionSymbol.
  destruct (documents w !! resolveBufnr bufnr env) as [doc|]; [|done].
  destruct (negb (attached doc)); [done|].
  destruct (negb (hasProvider env (textDocument doc))); [done|].
  unfold getDocumentSymbols_settled, getDocumentSymbols.
  destruct (buffers w !! resolveBufnr bufnr env).
  - rewrite getSymbols_settled_resolves.
    destruct (getSymbols (answer env) (resolveBufnr bufnr env) w) as [symbols w1]. cbn [fst snd].
    by destruct (getCurrentFunctionSymbol_scan _ _ _ _ _).
  - by destruct (getCurrentFunctionSymbol_scan _ _ _ _ _).
Qed.

(** X10.  With the preference on, a [getCurrentFunctionSymbol] that is past its
    guards ends in one of two ways.  When it has to call the provider (the
    cache is not at the version of the document) and that call rejects, it
    rejects as well: the provider call is its only effect, nothing is
    written to the editor.  In every other case it returns a string, and
    writes [coc_current_function] once, with that very string, and then
    fires [CocStatusChange]; these two are its only writes to the editor,
    after the provider call and the update event of the fetch, if there was
    one.  The runs in which the provider returns are those of
    [getCurrentFunctionSymbol].  The [CursorHold] listener does nothing at
    all when the preference is off or the buffer has no cache. *)
Theorem current_function_is_published `{Helper} (bufnr : option Z) (env : Env) (w : World)
        (doc : Document) :
  let b := resolveBufnr bufnr env in
  let v := TextDocument.version (textDocument doc) in
  let call outcome := getCurrentFunctionSymbol_settled outcome bufnr env w in
  let published functionName :=
    [SetVar b "coc_current_function" functionName;
     Call "coc#util#do_autocmd" ["CocStatusChange"]] in
  documents w !! b = Some doc ->
  attached doc = true ->
  hasProvider env (textDocument doc) = true ->
  functionUpdate env = true ->
  (forall buf,
      buffers w !! b = Some buf -> version buf <> Some v ->
      (fst (call Rejects) = None
       /\ effects (snd (call Rejects))
          = effects w ++ [GetDocumentSymbol b v (length (tokens w))])
      /\ (forall symbols, exists functionName,
             fst (call (Resolves symbols)) = Some (Some functionName)
             /\ effects (snd (call (Resolves symbols)))
                = effects w
                  ++ [GetDocumentSymbol b v (length (tokens w))]
                  ++ match symbols with
                     | Some result => [DidUpdate b (updatePayload result)]
                     | None => []
                     end
                  ++ published functionName))
  /\ (forall outcome,
         (buffers w !! b = None
          \/ exists buf, buffers w !! b = Some buf /\ version buf = Some v) ->
         exists functionName,
           fst (call outcome) = Some (Some functionName)
           /\ effects (snd (call outcome)) = effects w ++ published functionName)
  /\ call (Resolves (answer env))
     = (Some (fst (getCurrentFunctionSymbol bufnr env w)),
        snd (getCurrentFunctionSymbol bufnr env w))
  /\ (forall n env' w',
         functionUpdate env' = false \/ buffers w' !! n = None ->
         onCursorHold n env' w' = w').
Proof.
  intros b v call published Hdoc Hatt Hprov Hupdate.
  assert (Hcall : forall outcome,
             call outcome
             = match getDocumentSymbols_settled outcome b w with
               | (Some symbols, w1) =>
                   let '(functionName, w2) :=
                     getCurrentFunctionSymbol_scan env b (cursorPosition env) symbols w1 in
                   (Some functionName, w2)
               | (None, w1) => (None, w1)
               end).
  { intros outcome. unfold call, getCurrentFunctionSymbol_settled. fold b.
    by rewrite Hdoc, Hatt, Hprov. }
  split; [|split; [|split]].
  - intros buf Hbuf Hstale.
    destruct (getSymbols_call_awaits b w doc buf Hdoc Hbuf Hstale) as (w2 & Hawait & Heff & Hlive).
    fold v in Hawait, Heff.
    set (f := {| f_this := b; f_version := v; f_token := length (tokens w) |}) in *.
    split.
    + rewrite Hcall. unfold getDocumentSymbols_settled, getSymbols_settled.
      by rewrite Hbuf, Hawait.
    + intros symbols.
      set (w3 := providerReturns f symbols w2).
      assert (Heff3 : effects w3
                      = effects w
                        ++ [GetDocumentSymbol b v (length (tokens w))]
                        ++ match symbols with
                           | Some result => [DidUpdate b (updatePayload result)]
                           | None => []
                           end).
      { unfold w3. rewrite (providerReturns_effects f symbols w2 Hlive), Heff.
        by rewrite <- app_assoc. }
      rewrite Hcall. unfold getDocumentSymbols_settled, getSymbols_settled.
      rewrite Hbuf, Hawait. fold w3.
      destruct (getCurrentFunctionSymbol_scan_published env b (cursorPosition env)
                  (thisSymbols b w3) w3 Hupdate) as (functionName & Hname & Hwritten).
      exists functionName.
      destruct (getCurrentFunctionSymbol_scan _ _ _ _ _) as [value w4].
      cbn [fst snd] in *. subst value. split; [done|].
      rewrite Hwritten, Heff3. by rewrite <- !app_assoc.
  - intros outcome Hcached.
    assert (Hget : exists symbols w1,
               getDocumentSymbols_settled outcome b w = (Some symbols, w1)
               /\ effects w1 = effects w).
    { unfold getDocumentSymbols_settled, getSymbols_settled.
      destruct Hcached as [Hnone | (buf & Hbuf & Hver)].
      - rewrite Hnone. by exists None, w.
      - rewrite Hbuf, (getSymbols_call_returns b w doc buf Hdoc Hbuf Hver).
        by exists (symbols buf), (updateBuffer b (set_autoUpdate true) w). }
    destruct Hget as (symbols & w1 & Hget & Heff).
    rewrite Hcall, Hget.
    destruct (getCurrentFunctionSymbol_scan_published env b (cursorPosition env)
                symbols w1 Hupdate) as (functionName & Hname & Hwritten).
    exists functionName.
    destruct (getCurrentFunctionSymbol_scan _ _ _ _ _) as [value w4].
    cbn [fst snd] in *. subst value. split; [done|]. by rewrite Hwritten, Heff.
  - apply getCurrentFunctionSymbol_settled_resolves.
  - intros n env' w' [Hoff | Hnone]; unfold onCursorHold.
    + by rewrite Hoff.
    + rewrite Hnone. by destruct (functionUpdate env').
Qed.

(** On a new cache the call has to fetch: it rejects without a write when
    the provider call rejects, and publishes the method of the cursor when
    the provider answers. *)
Lemma current_function_is_published_witness :
  let w := Sample.world in
  let env := Sample.publishing (Sample.pos 5 0) {[ "method" := "m" ]} in
  let answer := Some (DocumentSymbols [Sample.treeFoo]) in
  (fst (getCurrentFunctionSymbol_settled Rejects (Some 1) env w) = None
   /\ effects (snd (getCurrentFunctionSymbol_settled Rejects (Some 1) env w))
      = [GetDocumentSymbol 1 1 0])
  /\ (fst (getCurrentFunctionSymbol_settled (Resolves answer) (Some 1) env w)
      = Some (Some "m bar")
      /\ effects (snd (getCurrentFunctionSymbol_settled (Resolves answer) (Some 1) env w))
         = [GetDocumentSymbol 1 1 0;
            DidUpdate 1 (updatePayload (DocumentSymbols [Sample.treeFoo]));
            SetVar 1 "coc_current_function" "m bar";
            Call "coc#util#do_autocmd" ["CocStatusChange"]]).
Proof.
  intros w env answer.
  pose proof (current_function_is_published (Some 1) env w (Sample.document 1)
                eq_refl eq_refl eq_refl eq_refl) as (Hstale & _).
  assert (Hversion : version
                       {| version := None; autoUpdate := false; symbols := Some 0%nat;
                          tokenSource := None; fetchSymbols := false |}
                     <> Some (TextDocument.version (textDocument (Sample.document 1))))
    by discriminate.
  pose proof (Hstale _ eq_refl Hversion) as [Hrejects Hresolves].
  split; [exact Hrejects|].
  destruct (Hresolves answer) as (functionName & Hname & Heffects).
  assert (Hbar : fst (getCurrentFunctionSymbol_settled (Resolves answer) (Some 1) env w)
                 = Some (Some "m bar")) by (vm_compute; reflexivity).
  split; [exact Hbar|].
  rewrite Hbar in Hname. injection Hname as <-. exact Heffects.
Defined.

Lemma includes_functionKinds (k : string) :
  includes functionKinds k = true ->
  k = "Class" \/ k = "Method" \/ k = "Function" \/ k = "Struct".
Proof.
  unfold includes, functionKinds. cbn [existsb]. rewrite !orb_true_iff, !String.eqb_eq.
  intros [? | [? | [? | [? | ?]]]]; auto. discriminate.
Qed.

(** X11.  The name that [getCurrentFunctionSymbol] returns depends on the labels of
    [class], [method], [function] and [struct] only: two configurations
    that agree on these four keys give the same name, for every snapshot
    and position. *)
Theorem only_function_kind_labels_matter `{Helper} (env env' : Env) (b : Z)
        (position : Position) (symbols : option nat) (w : World) :
  (forall key, In key ["class"; "method"; "function"; "struct"] ->
               labels env !! key = labels env' !! key) ->
  fst (getCurrentFunctionSymbol_scan env b position symbols w)
  = fst (getCurrentFunctionSymbol_scan env' b position symbols w).
Proof.
  intros Hlabels.
  destruct (deref symbols w) as [l|] eqn:Hl.
  - rewrite !(getCurrentFunctionSymbol_scan_name _ b position symbols w l Hl).
    destruct (List.find _ _) as [sym|] eqn:Hfind; [|done]. f_equal.
    apply find_some in Hfind as [Hin _].
    apply in_rev, filter_In in Hin as [_ Hkind].
    unfold decorate.
    apply includes_functionKinds in Hkind as [-> | [-> | [-> | ->]]]; simpl;
      rewrite Hlabels; simpl; auto.
  - unfold getCurrentFunctionSymbol_scan. by rewrite Hl.
Qed.

Lemma only_function_kind_labels_matter_witness :
  let w := Sample.fetched (DocumentSymbols [Sample.treeFoo]) in
  let env := Sample.publishing (Sample.pos 5 0) {[ "method" := "m" ]} in
  let env' := Sample.publishing (Sample.pos 5 0)
                (<[ "variable" := "v" ]> {[ "method" := "m" ]}) in
  fst (getCurrentFunctionSymbol_scan env 1 (Sample.pos 5 0) (Some 1%nat) w)
  = fst (getCurrentFunctionSymbol_scan env' 1 (Sample.pos 5 0) (Some 1%nat) w).
Proof.
  intros w env env'.
  apply (only_function_kind_labels_matter env env' 1 (Sample.pos 5 0) (Some 1%nat) w).
  intros key [<- | [<- | [<- | [<- | []]]]]; reflexivity.
Defined.

(** ** What selectSymbolRange selects *)

Lemma isContaining_containing (reference : Range) (sym : SymbolInfo) :
  isContaining reference sym = true -> containing (start reference) sym = true.
Proof.
  unfold isContaining, containing. destruct (range sym) as [r|]; [|done].
  rewrite andb_true_iff. intros [_ Hin]. unfold rangeInRange in Hin.
  by apply andb_true_iff in Hin as [? _].
Qed.

(** X12.  On a snapshot flattened from a properly nested tree, the range that
    [selectSymbolRange] searches out is the range of a symbol of one of the
    supported kinds, other than the reference range and around it, that is
    nested at least as deeply as every other such symbol; there is no such
    range only when there is no such symbol. *)
Theorem selection_is_innermost_supported `{Helper} (supportedSymbols : list string)
        (reference : Range) (forest : list DocumentSymbol) :
  properForest forest = true ->
  let l := flatten (DocumentSymbols forest) in
  exists found,
    innermostAmong
      (fun s => includes supportedSymbols (kind s) && isContaining reference s) l found
    /\ containingRange supportedSymbols reference l
       = match found with Some sym => range sym | None => None end.
Proof.
  intros Hproper l.
  exists (List.find (fun s => includes supportedSymbols (kind s) && isContaining reference s)
                    (rev l)).
  split.
  - apply (last_accepted_is_deepest (start reference)).
    + intros s Hs. apply andb_true_iff in Hs as [_ Hs]. by apply isContaining_containing.
    + by apply properForest_sorted.
  - unfold containingRange. by rewrite <- filter_rev, find_filter_andb.
Qed.

Lemma selection_is_innermost_supported_witness :
  let reference := {| start := Sample.pos 5 0; end_ := Sample.pos 5 0 |} in
  properForest [Sample.treeFoo] = true
  /\ exists found,
      innermostAmong (fun s => includes ["Method"] (kind s) && isContaining reference s)
                     (flatten (DocumentSymbols [Sample.treeFoo])) found
      /\ match found with Some sym => range sym | None => None end
         = Some (Sample.lineRange 1 10).
Proof.
  intros reference. split; [reflexivity|].
  destruct (selection_is_innermost_supported ["Method"] reference [Sample.treeFoo] eq_refl)
    as (found & Hinner & Hfound).
  exists found. split; [exact Hinner|]. rewrite <- Hfound. reflexivity.
Defined.

(** ** The inner range *)

Lemma leadingWhitespace_le (s : Line) : (leadingWhitespace s <= length s)%nat.
Proof.
  induction s as [|c s IH]; simpl; [lia|]. destruct (isWhitespace c); lia.
Qed.

(** X13.  For a symbol whose range ends at least two lines below its start, the
    inner range starts on the line after the first, ends on the line before
    the last, is in order and lies inside the range of the symbol, whatever
    the lines of the document are.  For a symbol on fewer lines the inner
    range is backwards: it starts below the line it ends on. *)
Theorem inner_range_inside (doc : Document) (r : Range) :
  (line (start r) + 2 <= line (end_ r) ->
   rangeInRange (innerRange doc r) r = true
   /\ comparePosition (start (innerRange doc r)) (end_ (innerRange doc r)) <= 0)
  /\ (line (end_ r) < line (start r) + 2 ->
      line (end_ (innerRange doc r)) < line (start (innerRange doc r))
      /\ 0 < comparePosition (start (innerRange doc r)) (end_ (innerRange doc r))).
Proof.
  split.
  - intros Hlines. rewrite rangeInRange_spec, comparePosition_le.
    unfold ple, innerRange. cbn [start end_ line character].
    repeat split; try lia.
    destruct (Z.eq_dec (line (start r) + 1) (line (end_ r) - 1)) as [Heq|Hne]; [|lia].
    right. split; [done|]. rewrite Heq.
    pose proof (leadingWhitespace_le (getline doc (line (end_ r) - 1))). lia.
  - intros Hlines. unfold innerRange. cbn [start end_ line character].
    split; [lia|].
    unfold comparePosition. cbn [line character].
    destruct (Z.ltb_spec (line (end_ r) - 1) (line (start r) + 1)); lia.
Qed.

Lemma inner_range_inside_witness :
  let r := {| start := Sample.pos 0 0; end_ := Sample.pos 3 1 |} in
  innerRange (Sample.document 1) r = {| start := Sample.pos 1 2; end_ := Sample.pos 2 3 |}
  /\ rangeInRange (innerRange (Sample.document 1) r) r = true.
Proof.
  intros r. split; [reflexivity|].
  apply (proj1 (inner_range_inside (Sample.document 1) r)). simpl. lia.
Defined.

(** ** A flat provider result *)

(** X14.  Whatever the ordering does, a flat result of the provider gives one
    entry for each of its symbols: the entries are those of the [else]
    branch of [_fetchSymbols] in some order, each at level 0, without a
    selection range, with the location range as its range and with the
    1-based line and column of the start of that range; the update that is
    fired carries one childless symbol for each of them. *)
Theorem flat_result_entries `{Helper} (l : list SymbolInformation) :
  Permutation (flatten (SymbolInformations l)) (map symbolInformationInfo l)
  /\ length (flatten (SymbolInformations l)) = length l
  /\ Forall (fun s => level s = 0 /\ selectionRange s = None
                     /\ exists r, range s = Some r
                                  /\ lnum s = line (start r) + 1
                                  /\ col s = character (start r) + 1)
            (flatten (SymbolInformations l))
  /\ Permutation (updatePayload (SymbolInformations l))
                 (map (fun o => mkDocumentSymbol (si_name o) "" (si_kind o)
                                                 (si_range o) (si_range o) []) l).
Proof.
  assert (Hperm : Permutation (flatten (SymbolInformations l)) (map symbolInformationInfo l)).
  { unfold flatten. by rewrite sort_Permutation. }
  split; [exact Hperm|]. split.
  { rewrite (Permutation_length Hperm). apply length_map. }
  split.
  - rewrite Forall_forall. intros s Hs. apply list_elem_of_In in Hs.
    eapply Permutation_in in Hs; [|exact Hperm].
    apply in_map_iff in Hs as (o & <- & _).
    repeat split; try done. by exists (si_range o).
  - unfold updatePayload. by rewrite sort_Permutation.
Qed.

(** ** The forced path and the fetch in flight *)




(** ** The queries that filter first *)

(** X9.  On a cache that is at the version of its document,
    [getCurrentFunctionSymbol] and [selectSymbolRange] leave the cached
    symbols as they are, in their order: they reverse the filtered copy,
    never the array of the cache. *)
Theorem filtering_queries_keep_cache `{Helper} (env : Env) (w : World) (doc : Document)
        (buf : SymbolsBuffer) (l : list SymbolInfo) :
  documents w !! currentBufnr env = Some doc ->
  attached doc = true ->
  hasProvider env (textDocument doc) = true ->
  buffers w !! currentBufnr env = Some buf ->
  version buf = Some (TextDocument.version (textDocument doc)) ->
  snapshot (currentBufnr env) w = Some l ->
  snapshot (currentBufnr env) (snd (getCurrentFunctionSymbol None env w)) = Some l
  /\ forall inner visualmode supportedSymbols,
      snapshot (currentBufnr env)
               (snd (selectSymbolRange inner visualmode supportedSymbols env w)) = Some l.
Proof.
  intros Hdoc Hatt Hprov Hbuf Hv Hl.
  set (b := currentBufnr env) in *.
  assert (Hfetch : getDocumentSymbols env b w
                   = (symbols buf, updateBuffer b (set_autoUpdate true) w)).
  { apply getDocumentSymbols_cached with (v := TextDocument.version (textDocument doc));
      [done| |done]. unfold documentVersion. by rewrite Hdoc. }
  assert (Hl0 : snapshot b (updateBuffer b (set_autoUpdate true) w) = Some l).
  { unfold snapshot in *. rewrite lookup_updateBuffer, decide_True, Hbuf by done.
    rewrite Hbuf in Hl. done. }
  destruct (filtering_queries_keep_snapshot b _ l (symbols buf) Hl0) as [Hname Hselect].
  split.
  - unfold getCurrentFunctionSymbol. cbn [resolveBufnr]. fold b.
    rewrite Hdoc, Hatt, Hprov. cbn [negb]. rewrite Hfetch. apply Hname.
  - intros inner visualmode supportedSymbols.
    unfold selectSymbolRange. fold b. rewrite Hdoc, Hatt, Hprov. cbn [negb].
    rewrite Hfetch. cbn [snd]. apply Hselect.
Qed.

Lemma filtering_queries_keep_cache_witness :
  let w := Sample.fetched (DocumentSymbols [Sample.treeABC]) in
  let env := Sample.env (Sample.pos 25 0) None in
  snapshot 1 (snd (getCurrentFunctionSymbol None env w)) = snapshot 1 w.
Proof.
  intros w env.
  destruct (buffers w !! 1) as [buf|] eqn:Hbuf; [|vm_compute in Hbuf; discriminate].
  destruct (snapshot 1 w) as [l|] eqn:Hl; [|vm_compute in Hl; discriminate].
  assert (Hv : version buf = Some 1).
  { vm_compute in Hbuf. injection Hbuf as <-. reflexivity. }
  exact (proj1 (filtering_queries_keep_cache env w (Sample.document 1) buf l
                  eq_refl eq_refl eq_refl Hbuf Hv Hl)).
Defined.
